(** * Furniture layout optimizer: a shallow embedding with proofs

    The development follows [src/src/room.py] (classes [Furniture] and
    [Room]) and [src/src/optimizer.py] (class [GeneticLayoutOptimizer] and
    the functions [create_room_with_furniture] and [optimize_room_layout]).

    Numbers.  Python floats are idealised as exact rationals ([Q]); the one
    place where the program can produce a not-a-number (a division by a zero
    cell count) is modelled explicitly.  [int(...)] is truncation towards zero.
    Python integers that count things ([population_size], [generations],
    [elitism_count]) are natural numbers: a negative value makes [range] empty
    exactly as zero does.

    Objects.  Furniture objects are mutable and are passed by reference, so
    they live in a heap (a list indexed by location); an individual is the
    list of the locations of its items.  [copy.deepcopy] allocates.

    Randomness.  The module [random] is an interface with the documented
    contract of the functions the program calls.

    Sorting.  [np.argsort] is an interface too: its default kind is not
    stable, so nothing is assumed of the order in which it returns equal
    scores. *)

From Stdlib Require Import ZArith NArith QArith Qround Lia Lqa Bool String Sorted Permutation.
From stdpp Require Import base tactics option list sorting.

Local Open Scope Q_scope.

(** ** Furniture (room.py, lines 65-97) *)

Module Furniture.

Record t : Type := mk {
  name : string;
  width : Q;
  length : Q;
  movable : bool;
  x : Q;
  y : Q;
  orientation : Z
}.

(** [Furniture.__init__] with its default arguments
    [movable=True, x=0, y=0, orientation=0]. *)
Definition init (name : string) (width length : Q) : t :=
  mk name width length true 0 0 0%Z.

(** [set_position(x, y, orientation=None)] *)
Definition set_position (self : t) (x y : Q) (orientation : option Z) : t :=
  mk (name self) (width self) (length self) (movable self) x y
     (match orientation with
      | Some o => o
      | None => Furniture.orientation self
      end).

(** [rotate()]: the orientation advances by 90 modulo 360; width and
    length are exchanged when the NEW orientation is 90 or 270. *)
Definition rotate (self : t) : t :=
  let o := ((orientation self + 90) mod 360)%Z in
  if ((o =? 90) || (o =? 270))%Z
  then mk (name self) (length self) (width self) (movable self)
          (x self) (y self) o
  else mk (name self) (width self) (length self) (movable self)
          (x self) (y self) o.

(** [n] successive calls of [rotate]. *)
Fixpoint rotate_n (n : nat) (self : t) : t :=
  match n with
  | O => self
  | S k => rotate_n k (rotate self)
  end.

End Furniture.

#[export] Instance Furniture_inhabited : Inhabited Furniture.t :=
  populate (Furniture.init EmptyString 0 0).

(** ** Numbers and comparisons as the interpreter evaluates them *)

#[export] Instance Q_inhabited : Inhabited Q := populate 0.

(** [a < b] on numbers, as a boolean. *)
Definition Qlt_bool (a b : Q) : bool := negb (Qle_bool b a).

(** [int(q)]: truncation towards zero. *)
Definition py_int (q : Q) : Z := Z.quot (Qnum q) (Zpos (Qden q)).

(** Two-argument step of the builtin [min]: the later argument replaces the
    current minimum only when it is strictly smaller. *)
Definition py_min2 (a b : Q) : Q := if Qlt_bool b a then b else a.

(** [min(a, b, c, d)] *)
Definition py_min4 (a b c d : Q) : Q := py_min2 (py_min2 (py_min2 a b) c) d.

(** [max(0, score)]: [score] is returned only when [score > 0]. *)
Definition py_max0 (score : Q) : Q := if Qlt_bool 0 score then score else 0.

(** ** Fixed elements: the dictionaries built in app.py, lines 102-108 *)

Module FixedElement.

Record t : Type := mk {
  name : string;
  x : Q;
  y : Q;
  width : Q;
  length : Q
}.

End FixedElement.

(** ** The optimizer object (optimizer.py, lines 8-19)

    The attribute [best_fitness_history] is mutable and lives in the world
    (see below); the others are set once by [__init__]. *)

Record GeneticLayoutOptimizer : Type := mkOptimizer {
  room_length : Q;
  room_width : Q;
  furniture_list : list Furniture.t;
  fixed_elements : list FixedElement.t;
  population_size : nat;
  generations : nat;
  mutation_rate : Q;
  elitism_count : nat
}.

(** [GeneticLayoutOptimizer.__init__]: every argument is stored as given;
    [fixed_elements=None] becomes the empty list.  Nothing is validated. *)
Definition optimizer_init (room_length room_width : Q)
    (furniture_list : list Furniture.t)
    (fixed_elements : option (list FixedElement.t))
    (population_size generations : nat) (mutation_rate : Q)
    (elitism_count : nat) : GeneticLayoutOptimizer :=
  mkOptimizer room_length room_width furniture_list
    (match fixed_elements with Some l => l | None => [] end)
    population_size generations mutation_rate elitism_count.

(** ** Exceptions *)

Inductive exn : Type := ValueError | IndexError.

Inductive result (A : Type) : Type :=
| Ok (a : A)
| Raise (e : exn).
Arguments Ok {A} a.
Arguments Raise {A} e.

(** [l[i]] for a natural index. *)
Definition index {A} (l : list A) (i : nat) : result A :=
  match l !! i with
  | Some a => Ok a
  | None => Raise IndexError
  end.

(** ** Fitness evaluation (optimizer.py, lines 51-121) *)

(** Lines 59-62: the test between an item and a fixed element. *)
Definition overlaps_fixed (furniture : Furniture.t) (element : FixedElement.t) : bool :=
  Qlt_bool (Furniture.x furniture) (FixedElement.x element + FixedElement.width element)
  && Qlt_bool (FixedElement.x element) (Furniture.x furniture + Furniture.length furniture)
  && Qlt_bool (Furniture.y furniture) (FixedElement.y element + FixedElement.length element)
  && Qlt_bool (FixedElement.y element) (Furniture.y furniture + Furniture.width furniture).

(** Lines 71-74: the test between two items. *)
Definition overlaps_furniture (furn1 furn2 : Furniture.t) : bool :=
  Qlt_bool (Furniture.x furn1) (Furniture.x furn2 + Furniture.length furn2)
  && Qlt_bool (Furniture.x furn2) (Furniture.x furn1 + Furniture.length furn1)
  && Qlt_bool (Furniture.y furn1) (Furniture.y furn2 + Furniture.width furn2)
  && Qlt_bool (Furniture.y furn2) (Furniture.y furn1 + Furniture.width furn1).

(** Lines 57-63: the two nested loops over items and fixed elements. *)
Definition fixed_overlap_loop (individual : list Furniture.t)
    (elements : list FixedElement.t) (score : Q) : Q :=
  fold_left (fun score furniture =>
    fold_left (fun score element =>
      if overlaps_fixed furniture element then score - 20 else score)
      elements score)
    individual score.

(** Lines 66-75: [for i in range(len(individual))],
    [for j in range(i+1, len(individual))]. *)
Definition furniture_overlap_loop (individual : list Furniture.t) (score : Q) : Q :=
  let n := List.length individual in
  fold_left (fun score i =>
    fold_left (fun score j =>
      let furn1 := individual !!! i in
      let furn2 := individual !!! j in
      if overlaps_furniture furn1 furn2 then score - 15 else score)
      (seq (i + 1) (n - (i + 1))) score)
    (seq 0 n) score.

(** Lines 80-85: the distance of an item to the nearest wall. *)
Definition min_wall_dist (self : GeneticLayoutOptimizer) (furniture : Furniture.t) : Q :=
  let dist_left := Furniture.x furniture in
  let dist_right := room_length self - (Furniture.x furniture + Furniture.length furniture) in
  let dist_top := Furniture.y furniture in
  let dist_bottom := room_width self - (Furniture.y furniture + Furniture.width furniture) in
  py_min4 dist_left dist_right dist_top dist_bottom.

(** Lines 78-88. *)
Definition wall_loop (self : GeneticLayoutOptimizer)
    (individual : list Furniture.t) (score : Q) : Q :=
  fold_left (fun score furniture =>
    if Qlt_bool (min_wall_dist self furniture) (1 # 10) then score + 5 else score)
    individual score.

(** *** The occupancy grid *)

Definition grid_size : Q := 20.

(** A slice bound normalised against an axis of [n] entries: a negative
    bound counts from the end, and the outcome is clipped to [0..n]. *)
Definition clip (n : nat) (i : Z) : nat :=
  let i := if (i <? 0)%Z then (i + Z.of_nat n)%Z else i in
  if (i <? 0)%Z then 0%nat
  else if (Z.of_nat n <? i)%Z then n
  else Z.to_nat i.

Definition in_range (lo hi i : nat) : bool := (lo <=? i)%nat && (i <? hi)%nat.

(** [grid[y1:y2, x1:x2] = 1] on a grid of [rows] by [cols] cells; [true]
    stands for an occupied cell. *)
Definition slice_assign (rows cols : nat) (y1 y2 x1 x2 : Z)
    (grid : list (list bool)) : list (list bool) :=
  let r1 := clip rows y1 in
  let r2 := clip rows y2 in
  let c1 := clip cols x1 in
  let c2 := clip cols x2 in
  imap (fun r row =>
    if in_range r1 r2 r
    then imap (fun c cell => if in_range c1 c2 c then true else cell) row
    else row) grid.

(** Lines 96-101. *)
Definition add_fixed_elements (rows cols : nat) (elements : list FixedElement.t)
    (grid : list (list bool)) : list (list bool) :=
  fold_left (fun grid element =>
    let x1 := py_int (FixedElement.x element * grid_size) in
    let y1 := py_int (FixedElement.y element * grid_size) in
    let x2 := py_int ((FixedElement.x element + FixedElement.width element) * grid_size) in
    let y2 := py_int ((FixedElement.y element + FixedElement.length element) * grid_size) in
    slice_assign rows cols y1 y2 x1 x2 grid) elements grid.

(** Lines 104-109. *)
Definition add_furniture (rows cols : nat) (individual : list Furniture.t)
    (grid : list (list bool)) : list (list bool) :=
  fold_left (fun grid furn =>
    let x1 := py_int (Furniture.x furn * grid_size) in
    let y1 := py_int (Furniture.y furn * grid_size) in
    let x2 := py_int ((Furniture.x furn + Furniture.length furn) * grid_size) in
    let y2 := py_int ((Furniture.y furn + Furniture.width furn) * grid_size) in
    slice_assign rows cols y1 y2 x1 x2 grid) individual grid.

(** [np.sum(grid == 0)] *)
Definition empty_cells (grid : list (list bool)) : nat :=
  list_sum (map (fun row => List.length (filter (fun c => c = false) row)) grid).

(** Lines 112-114: [None] stands for the not-a-number that the division
    yields when the grid has no cell. *)
Definition walkability (rows cols : nat) (grid : list (list bool)) : option Q :=
  let total_cells := (rows * cols)%nat in
  match total_cells with
  | O => None
  | S _ => Some (inject_Z (Z.of_nat (empty_cells grid)) / inject_Z (Z.of_nat total_cells))
  end.

(** Lines 54-88: the score before the walkability reward. *)
Definition overlap_and_wall_score (self : GeneticLayoutOptimizer)
    (individual : list Furniture.t) : Q :=
  let score := 100 in
  let score := fixed_overlap_loop individual (fixed_elements self) score in
  let score := furniture_overlap_loop individual score in
  wall_loop self individual score.

(** Lines 92-109: the grid, or [ValueError] from [np.zeros] on a negative
    dimension. *)
Definition occupancy_grid (self : GeneticLayoutOptimizer)
    (individual : list Furniture.t) : result (nat * nat * list (list bool)) :=
  let rows := py_int (room_width self * grid_size) in
  let cols := py_int (room_length self * grid_size) in
  if ((rows <? 0) || (cols <? 0))%Z then Raise ValueError
  else
    let rows := Z.to_nat rows in
    let cols := Z.to_nat cols in
    let grid := repeat (repeat false cols) rows in
    let grid := add_fixed_elements rows cols (fixed_elements self) grid in
    let grid := add_furniture rows cols individual grid in
    Ok (rows, cols, grid).

(** The score of line 116, before the clamp of line 119; [None] when the
    walkability is not a number. *)
Definition raw_score (self : GeneticLayoutOptimizer)
    (individual : list Furniture.t) : result (option Q) :=
  match occupancy_grid self individual with
  | Raise e => Raise e
  | Ok (rows, cols, grid) =>
      match walkability rows cols grid with
      | None => Ok None
      | Some w => Ok (Some (overlap_and_wall_score self individual + w * 30))
      end
  end.

(** [calculate_fitness].  When the score is not a number, the comparison
    inside [max(0, score)] is false and [0] is returned. *)
Definition calculate_fitness (self : GeneticLayoutOptimizer)
    (individual : list Furniture.t) : result Q :=
  match raw_score self individual with
  | Raise e => Raise e
  | Ok None => Ok 0
  | Ok (Some score) => Ok (py_max0 score)
  end.

(** ** [np.argmax] and [np.argsort] on a list of scores *)

(** The scan of [np.argmax]: the first position holding the maximum. *)
Fixpoint argmax_from (l : list Q) (i best_i : nat) (best : Q) : nat :=
  match l with
  | [] => best_i
  | v :: l' =>
      if Qlt_bool best v then argmax_from l' (S i) i v
      else argmax_from l' (S i) best_i best
  end.

(** [np.argmax(l)]; [ValueError] on an empty sequence. *)
Definition argmax (l : list Q) : result nat :=
  match l with
  | [] => Raise ValueError
  | v :: l' => Ok (argmax_from l' 1 0 v)
  end.

(** [np.argsort(scores)]: the positions of the scores in ascending order of
    score.  The default kind of [np.argsort] is not a stable sort, and numpy
    does not say which of two positions with equal scores comes first.  The
    sort is therefore a parameter of the development, known only by what
    every kind of [np.argsort] gives: every position once, scores
    ascending. *)
Class ArgSort : Type := {
  argsort : list Q -> list nat;
  argsort_Permutation : forall scores,
    Permutation (argsort scores) (seq 0 (List.length scores));
  argsort_ascending : forall scores,
    StronglySorted (fun i j => scores !!! i <= scores !!! j) (argsort scores)
}.

(** One insertion of a stable ascending sort of positions by score: the
    position [i] goes behind every position whose score is not greater. *)
Fixpoint insert_index (scores : list Q) (i : nat) (sorted : list nat) : list nat :=
  match sorted with
  | [] => [i]
  | j :: rest =>
      if Qlt_bool (scores !!! i) (scores !!! j) then i :: j :: rest
      else j :: insert_index scores i rest
  end.

(** One sort that [np.argsort] may be, to run the program with: the stable
    ascending insertion sort, in which equal scores keep their positions in
    increasing order. *)
Definition insertion_argsort (scores : list Q) : list nat :=
  fold_left (fun sorted i => insert_index scores i sorted)
    (seq 0 (List.length scores)) [].

(** ** The module [random] *)

Class RandomSource (G : Type) : Type := {
  (** [random.random()]: a number in [0, 1) and the next generator state. *)
  next_float : G -> Q * G;
  next_float_range : forall g, 0 <= (next_float g).1 /\ (next_float g).1 < 1;
  (** [random.sample(range(n), k)] for [k <= n]: [k] distinct positions
      below [n]. *)
  next_sample : nat -> nat -> G -> list nat * G;
  next_sample_length : forall n k g,
    (k <= n)%nat -> List.length (next_sample n k g).1 = k;
  next_sample_NoDup : forall n k g,
    (k <= n)%nat -> NoDup (next_sample n k g).1;
  next_sample_bound : forall n k g,
    (k <= n)%nat -> Forall (fun i => (i < n)%nat) (next_sample n k g).1
}.

(** ** The world: heap of furniture objects, generator, history *)

Abbreviation loc := nat (only parsing).

(** An individual is a list of references to furniture objects. *)
Abbreviation individual := (list loc) (only parsing).

Record world (G : Type) : Type := mkWorld {
  heap : list Furniture.t;
  rng : G;
  best_fitness_history : list Q
}.
Arguments mkWorld {G} heap rng best_fitness_history.
Arguments heap {G} w.
Arguments rng {G} w.
Arguments best_fitness_history {G} w.

(** A computation reads and updates the world and returns or raises; the
    world survives a raise. *)
Definition M (G A : Type) : Type := world G -> result A * world G.

Definition ret {G A} (a : A) : M G A := fun w => (Ok a, w).

Definition bind {G A B} (m : M G A) (k : A -> M G B) : M G B :=
  fun w =>
    match m w with
    | (Ok a, w') => k a w'
    | (Raise e, w') => (Raise e, w')
    end.

Definition raise {G A} (e : exn) : M G A := fun w => (Raise e, w).

Definition lift_result {G A} (r : result A) : M G A := fun w => (r, w).

Notation "x <- m ;; k" := (bind m (fun x => k))
  (at level 62, m at next level, right associativity).
Notation "m ;;; k" := (bind m (fun _ => k))
  (at level 62, right associativity).

(** [[f(a) for a in l]] with effects, left to right. *)
Fixpoint for_each {G A B} (f : A -> M G B) (l : list A) : M G (list B) :=
  match l with
  | [] => ret []
  | a :: l' =>
      b <- f a ;;
      bs <- for_each f l' ;;
      ret (b :: bs)
  end.

(** [for _ in range(n)], collecting one value per round. *)
Fixpoint repeat_times {G A} (n : nat) (m : M G A) : M G (list A) :=
  match n with
  | O => ret []
  | S n' =>
      a <- m ;;
      rest <- repeat_times n' m ;;
      ret (a :: rest)
  end.

Section Operators.

Context {G : Type} `{RandomSource G} {sorter : ArgSort}.

(** *** Heap access *)

(** A new object; its reference is the next free location. *)
Definition alloc (f : Furniture.t) : M G loc :=
  fun w => (Ok (List.length (heap w)),
            mkWorld (heap w ++ [f]) (rng w) (best_fitness_history w)).

Definition load (l : loc) : M G Furniture.t :=
  fun w => (Ok (heap w !!! l), w).

Definition store (l : loc) (f : Furniture.t) : M G unit :=
  fun w => (Ok tt, mkWorld (<[l := f]> (heap w)) (rng w) (best_fitness_history w)).

(** The values of the items of an individual. *)
Definition deref (h : list Furniture.t) (ind : individual) : list Furniture.t :=
  map (fun l => h !!! l) ind.

(** [furniture.rotate()] on the object behind a reference. *)
Definition call_rotate (l : loc) : M G unit :=
  f <- load l ;; store l (Furniture.rotate f).

(** [furniture.set_position(x, y)] on the object behind a reference. *)
Definition call_set_position (l : loc) (x y : Q) : M G unit :=
  f <- load l ;; store l (Furniture.set_position f x y None).

(** [copy.deepcopy] of one furniture object: its attributes are immutable
    values, so the copy is one new object. *)
Definition deepcopy_furniture (l : loc) : M G loc :=
  f <- load l ;; alloc f.

(** [copy.deepcopy] of a list of furniture objects.  The memo keeps an
    object met twice shared in the copy. *)
Fixpoint deepcopy_memo (memo : list (loc * loc)) (ind : individual) : M G individual :=
  match ind with
  | [] => ret []
  | l :: ind' =>
      match list_find (fun p => p.1 = l) memo with
      | Some (_, (_, l')) =>
          rest <- deepcopy_memo memo ind' ;;
          ret (l' :: rest)
      | None =>
          l' <- deepcopy_furniture l ;;
          rest <- deepcopy_memo ((l, l') :: memo) ind' ;;
          ret (l' :: rest)
      end
  end.

Definition deepcopy (ind : individual) : M G individual := deepcopy_memo [] ind.

(** *** Random draws *)

Definition random_random : M G Q :=
  fun w => let (r, g) := next_float (rng w) in
           (Ok r, mkWorld (heap w) g (best_fitness_history w)).

(** [random.uniform(a, b)] is [a + (b - a) * random()]. *)
Definition random_uniform (a b : Q) : M G Q :=
  r <- random_random ;; ret (a + (b - a) * r).

(** [random.sample(range(n), k)]; [ValueError] when the sample is larger
    than the population. *)
Definition random_sample (n k : nat) : M G (list nat) :=
  fun w =>
    if (k <=? n)%nat then
      let (s, g) := next_sample n k (rng w) in
      (Ok s, mkWorld (heap w) g (best_fitness_history w))
    else (Raise ValueError, w).

(** *** History *)

Definition reset_history : M G unit :=
  fun w => (Ok tt, mkWorld (heap w) (rng w) []).

Definition append_history (v : Q) : M G unit :=
  fun w => (Ok tt, mkWorld (heap w) (rng w) (best_fitness_history w ++ [v])).

(** *** Population operators *)

Variable self : GeneticLayoutOptimizer.

(** Lines 33-45: the body of the loop over the catalog. *)
Definition initialize_item (furniture : Furniture.t) : M G loc :=
  furn_copy <- alloc furniture ;;
  r <- random_random ;;
  (if Qlt_bool (1 # 2) r then call_rotate furn_copy else ret tt) ;;;
  f <- load furn_copy ;;
  x <- random_uniform 0 (room_length self - Furniture.length f) ;;
  y <- random_uniform 0 (room_width self - Furniture.width f) ;;
  call_set_position furn_copy x y ;;;
  ret furn_copy.

(** [initialize_population], lines 24-49. *)
Definition initialize_population : M G (list individual) :=
  repeat_times (population_size self)
    (for_each initialize_item (furniture_list self)).

(** [calculate_fitness] of an individual of the heap. *)
Definition fitness_of (ind : individual) : M G Q :=
  fun w => (calculate_fitness self (deref (heap w) ind), w).

(** Lines 129-135: one tournament. *)
Definition tournament (population : list individual) (fitness_scores : list Q)
    : M G individual :=
  let tournament_size := 3%nat in
  tournament_indices <- random_sample (List.length population) tournament_size ;;
  tournament_fitness <- for_each (fun i => lift_result (index fitness_scores i))
                          tournament_indices ;;
  pos <- lift_result (argmax tournament_fitness) ;;
  winner_idx <- lift_result (index tournament_indices pos) ;;
  lift_result (index population winner_idx).

(** [select_parents], lines 123-137. *)
Definition select_parents (population : list individual) (fitness_scores : list Q)
    : M G (list individual) :=
  repeat_times 2 (tournament population fitness_scores).

(** [crossover], lines 139-150. *)
Definition crossover (parent1 parent2 : individual) : M G individual :=
  for_each (fun i =>
    r <- random_random ;;
    if Qlt_bool r (1 # 2)
    then (l <- lift_result (index parent1 i) ;; deepcopy_furniture l)
    else (l <- lift_result (index parent2 i) ;; deepcopy_furniture l))
    (seq 0 (List.length parent1)).

(** Lines 155-163: the body of the loop of [mutate]. *)
Definition mutate_item (furniture : loc) : M G unit :=
  r <- random_random ;;
  (if Qlt_bool r (mutation_rate self) then
     f <- load furniture ;;
     x <- random_uniform 0 (room_length self - Furniture.length f) ;;
     y <- random_uniform 0 (room_width self - Furniture.width f) ;;
     call_set_position furniture x y
   else ret tt) ;;;
  r <- random_random ;;
  if Qlt_bool r (mutation_rate self) then call_rotate furniture else ret tt.

(** [mutate], lines 152-165: the items change in place and the same list
    is returned. *)
Definition mutate (ind : individual) : M G individual :=
  for_each mutate_item ind ;;; ret ind.

(** *** The generational loop *)

(** Lines 181-186: the best individual so far and the history. *)
Definition track_best (population : list individual) (fitness_scores : list Q)
    (best_individual : option individual) (best_fitness : Q)
    : M G (option individual * Q) :=
  max_fitness_idx <- lift_result (argmax fitness_scores) ;;
  max_fitness <- lift_result (index fitness_scores max_fitness_idx) ;;
  best <- (if Qlt_bool best_fitness max_fitness then
             ind <- lift_result (index population max_fitness_idx) ;;
             copy <- deepcopy ind ;;
             ret (Some copy, max_fitness)
           else ret (best_individual, best_fitness)) ;;
  append_history best.2 ;;;
  ret best.

(** Line 195: [np.argsort(fitness_scores)[::-1]]. *)
Definition sorted_indices (fitness_scores : list Q) : list nat :=
  rev (argsort fitness_scores).

(** Lines 195-197: the elite, copied into the new population. *)
Definition elitism (population : list individual) (fitness_scores : list Q)
    : M G (list individual) :=
  let sorted_indices := sorted_indices fitness_scores in
  for_each (fun i =>
    idx <- lift_result (index sorted_indices i) ;;
    ind <- lift_result (index population idx) ;;
    deepcopy ind)
    (seq 0 (elitism_count self)).

(** Lines 200-210: the [while] loop.  Every round appends one child, so
    the loop makes [population_size - len(new_population)] rounds. *)
Fixpoint breed (rounds : nat) (population : list individual)
    (fitness_scores : list Q) (new_population : list individual)
    : M G (list individual) :=
  match rounds with
  | O => ret new_population
  | S rounds' =>
      parents <- select_parents population fitness_scores ;;
      parent1 <- lift_result (index parents 0) ;;
      parent2 <- lift_result (index parents 1) ;;
      child <- crossover parent1 parent2 ;;
      child <- mutate child ;;
      breed rounds' population fitness_scores (new_population ++ [child])
  end.

(** Lines 192-212: the next population. *)
Definition next_population (population : list individual) (fitness_scores : list Q)
    : M G (list individual) :=
  new_population <- elitism population fitness_scores ;;
  breed (population_size self - List.length new_population)
    population fitness_scores new_population.

(** Lines 177-212: one generation. *)
Definition generation (population : list individual)
    (best_individual : option individual) (best_fitness : Q)
    : M G (list individual * (option individual * Q)) :=
  fitness_scores <- for_each fitness_of population ;;
  best <- track_best population fitness_scores best_individual best_fitness ;;
  new_population <- next_population population fitness_scores ;;
  ret (new_population, best).

(** Lines 176-212: [for generation in range(self.generations)]. *)
Fixpoint generations_loop (n : nat) (population : list individual)
    (best_individual : option individual) (best_fitness : Q)
    : M G (option individual * Q) :=
  match n with
  | O => ret (best_individual, best_fitness)
  | S n' =>
      st <- generation population best_individual best_fitness ;;
      generations_loop n' st.1 st.2.1 st.2.2
  end.

(** [optimize], lines 167-217 (the progress messages are left out). *)
Definition optimize : M G (option individual * Q) :=
  population <- initialize_population ;;
  reset_history ;;;
  let best_individual := None in
  let best_fitness := 0 in
  generations_loop (generations self) population best_individual best_fitness.

End Operators.

(** ** Rooms (room.py, lines 6-62) *)

Module Room.

(** The list [furniture] holds references: the room shares its furniture
    objects with whoever added them. *)
Record t : Type := mk {
  name : string;
  length : Q;
  width : Q;
  furniture : list loc;
  fixed_elements : list FixedElement.t
}.

(** [Room.__init__] *)
Definition init (length width : Q) (name : string) : t :=
  mk name length width [] [].

Definition add_furniture (self : t) (furniture : loc) : t :=
  mk (name self) (length self) (width self)
     (Room.furniture self ++ [furniture]) (fixed_elements self).

Definition add_fixed_element (self : t) (element : FixedElement.t) : t :=
  mk (name self) (length self) (width self)
     (furniture self) (Room.fixed_elements self ++ [element]).

(** [grid[y1:y2, x1:x2] = v] on a grid of [rows] by [cols] numbers. *)
Definition slice_assign_value (rows cols : nat) (y1 y2 x1 x2 : Z) (v : Z)
    (grid : list (list Z)) : list (list Z) :=
  let r1 := clip rows y1 in
  let r2 := clip rows y2 in
  let c1 := clip cols x1 in
  let c2 := clip cols x2 in
  imap (fun r row =>
    if in_range r1 r2 r
    then imap (fun c cell => if in_range c1 c2 c then v else cell) row
    else row) grid.

(** [get_grid_representation(grid_size)], lines 20-40, in a heap [h]: a
    fixed element is written as 1 and an item as 2, the width of the item
    along x and its length along y.  [ValueError] comes from [np.zeros] on
    a negative dimension. *)
Definition get_grid_representation (self : t) (h : list Furniture.t)
    (grid_size : Q) : result (list (list Z)) :=
  let rows := py_int (width self * grid_size) in
  let cols := py_int (length self * grid_size) in
  if ((rows <? 0) || (cols <? 0))%Z then Raise ValueError
  else
    let rows := Z.to_nat rows in
    let cols := Z.to_nat cols in
    let grid := repeat (repeat 0%Z cols) rows in
    let grid :=
      fold_left (fun grid element =>
        let x1 := py_int (FixedElement.x element * grid_size) in
        let y1 := py_int (FixedElement.y element * grid_size) in
        let x2 := py_int ((FixedElement.x element + FixedElement.width element)
                          * grid_size) in
        let y2 := py_int ((FixedElement.y element + FixedElement.length element)
                          * grid_size) in
        slice_assign_value rows cols y1 y2 x1 x2 1 grid)
        (fixed_elements self) grid in
    let grid :=
      fold_left (fun grid furn =>
        let x1 := py_int (Furniture.x furn * grid_size) in
        let y1 := py_int (Furniture.y furn * grid_size) in
        let x2 := py_int ((Furniture.x furn + Furniture.width furn) * grid_size) in
        let y2 := py_int ((Furniture.y furn + Furniture.length furn) * grid_size) in
        slice_assign_value rows cols y1 y2 x1 x2 2 grid)
        (map (fun l => h !!! l) (furniture self)) grid in
    Ok grid.

End Room.

(** An item with its width and its length exchanged. *)
Definition exchange_dimensions (f : Furniture.t) : Furniture.t :=
  Furniture.mk (Furniture.name f) (Furniture.length f) (Furniture.width f)
    (Furniture.movable f) (Furniture.x f) (Furniture.y f)
    (Furniture.orientation f).

(** A cell of the grid of a room is occupied when it is not 0. *)
Definition occupied (v : Z) : bool := negb (v =? 0)%Z.

(** ** The functions of the module (optimizer.py, lines 230-280) *)

(** An entry of [furniture_config]: a dictionary with the keys [name],
    [width] and [length], and maybe [movable]. *)
Module FurnitureConfig.

Record t : Type := mk {
  name : string;
  width : Q;
  length : Q;
  movable : option bool
}.

End FurnitureConfig.

(** What the functions of the module raise: what the optimizer raises, or
    the [TypeError] of a loop over [None]. *)
Inductive module_exn : Type :=
| FromOptimizer (e : exn)
| TypeError.

(** [create_room_with_furniture], lines 230-243.  [furniture_list] is what
    [optimize] returned as best individual, [None] included. *)
Definition create_room_with_furniture (room_length room_width : Q)
    (furniture_list : option (list loc))
    (fixed_elements : option (list FixedElement.t)) (name : string)
    : Room.t + module_exn :=
  let room := Room.init room_length room_width name in
  let room :=
    match fixed_elements with
    | Some (element :: rest) =>
        fold_left Room.add_fixed_element (element :: rest) room
    | _ => room
    end in
  match furniture_list with
  | None => inr TypeError
  | Some furniture_list => inl (fold_left Room.add_furniture furniture_list room)
  end.

(** Lines 250-257 and 260-267: the catalog and the optimizer, with the
    defaults [mutation_rate=0.2] and [elitism_count=5] of [__init__]. *)
Definition layout_optimizer (room_length room_width : Q)
    (furniture_config : list FurnitureConfig.t)
    (fixed_elements : option (list FixedElement.t))
    (generations population_size : nat) : GeneticLayoutOptimizer :=
  let furniture_list :=
    map (fun item =>
      Furniture.mk (FurnitureConfig.name item) (FurnitureConfig.width item)
        (FurnitureConfig.length item)
        (match FurnitureConfig.movable item with Some b => b | None => true end)
        0 0 0%Z) furniture_config in
  optimizer_init room_length room_width furniture_list fixed_elements
    population_size generations (1 # 5) 5.

(** [optimize_room_layout], lines 245-280: the room, the best layout, its
    fitness and the history. *)
Definition optimize_room_layout {G : Type} `{RandomSource G} {sorter : ArgSort}
    (room_length room_width : Q) (furniture_config : list FurnitureConfig.t)
    (fixed_elements : option (list FixedElement.t))
    (generations population_size : nat) (w : world G)
    : (Room.t * option (list loc) * Q * list Q + module_exn) * world G :=
  let optimizer := layout_optimizer room_length room_width furniture_config
                     fixed_elements generations population_size in
  match optimize optimizer w with
  | (Raise e, w') => (inr (FromOptimizer e), w')
  | (Ok (best_layout, fitness), w') =>
      match create_room_with_furniture room_length room_width best_layout
              fixed_elements "Optimized Room" with
      | inr e => (inr e, w')
      | inl optimized_room =>
          (inl (optimized_room, best_layout, fitness, best_fitness_history w'), w')
      end
  end.

(** ** What the specification says of the dimensions *)

(** The dimensions an item shows at an orientation, as the specification
    words them: the base dimensions, exchanged exactly when the orientation is
    90 or 270. *)
Definition effective_dimensions (base_width base_length : Q) (orientation : Z) : Q * Q :=
  if ((orientation =? 90) || (orientation =? 270))%Z
  then (base_length, base_width)
  else (base_width, base_length).

(** The dimensions an object holds. *)
Definition dimensions (f : Furniture.t) : Q * Q :=
  (Furniture.width f, Furniture.length f).

(** ** What the specification says of overlaps *)

(** An axis-aligned rectangle. *)
Record rect : Type := mkRect { xmin : Q; xmax : Q; ymin : Q; ymax : Q }.

(** The overlap of the specification: on both axes, [a.min < b.max] and
    [a.max > b.min]. *)
Definition rects_overlap (a b : rect) : Prop :=
  (xmin a < xmax b /\ xmin b < xmax a) /\ (ymin a < ymax b /\ ymin b < ymax a).

Definition rects_overlapb (a b : rect) : bool :=
  (Qlt_bool (xmin a) (xmax b) && Qlt_bool (xmin b) (xmax a))
  && (Qlt_bool (ymin a) (ymax b) && Qlt_bool (ymin b) (ymax a)).

(** The rectangle of an item: its length runs along x, its width along y. *)
Definition furniture_rect (f : Furniture.t) : rect :=
  mkRect (Furniture.x f) (Furniture.x f + Furniture.length f)
         (Furniture.y f) (Furniture.y f + Furniture.width f).

(** The rectangle of a fixed element: its width runs along x, its length
    along y. *)
Definition element_rect (e : FixedElement.t) : rect :=
  mkRect (FixedElement.x e) (FixedElement.x e + FixedElement.width e)
         (FixedElement.y e) (FixedElement.y e + FixedElement.length e).

(** The unordered pairs of the entries of a list, each once. *)
Fixpoint unordered_pairs {A} (l : list A) : list (A * A) :=
  match l with
  | [] => []
  | a :: l' => map (pair a) l' ++ unordered_pairs l'
  end.

(** A count as a number. *)
Definition Qnat (n : nat) : Q := inject_Z (Z.of_nat n).

(** The number of overlapping (item, fixed element) pairs. *)
Definition fixed_overlap_count (individual : list Furniture.t)
    (elements : list FixedElement.t) : nat :=
  List.length (List.filter
    (fun p => rects_overlapb (furniture_rect p.1) (element_rect p.2))
    (list_prod individual elements)).

(** The number of overlapping unordered pairs of items. *)
Definition furniture_overlap_count (individual : list Furniture.t) : nat :=
  List.length (List.filter
    (fun p => rects_overlapb (furniture_rect p.1) (furniture_rect p.2))
    (unordered_pairs individual)).

(** The number of items closer than 0.1 to a wall. *)
Definition near_wall_count (self : GeneticLayoutOptimizer)
    (individual : list Furniture.t) : nat :=
  List.length (List.filter
    (fun f => Qlt_bool (min_wall_dist self f) (1 # 10)) individual).

(** ** Where initialization puts an item *)

(** The object that lines 36-43 make of a catalog item: the item as it is or
    rotated once, at the position that [random.uniform] computes from two
    draws [u] and [v] of [random.random]. *)
Definition placed (self : GeneticLayoutOptimizer) (furniture obj : Furniture.t) : Prop :=
  exists (u v : Q) (f : Furniture.t),
    (0 <= u /\ u < 1) /\ (0 <= v /\ v < 1)
    /\ (f = furniture \/ f = Furniture.rotate furniture)
    /\ obj = Furniture.set_position f
               (0 + (room_length self - Furniture.length f - 0) * u)
               (0 + (room_width self - Furniture.width f - 0) * v) None.

(** "Random position within room bounds" (the comment of line 40): the
    rectangle of the object lies in the room. *)
Definition within_room (self : GeneticLayoutOptimizer) (obj : Furniture.t) : Prop :=
  (0 <= Furniture.x obj
   /\ Furniture.x obj + Furniture.length obj <= room_length self)
  /\ (0 <= Furniture.y obj
      /\ Furniture.y obj + Furniture.width obj <= room_width self).

(** The later world has the objects of the earlier one, unchanged, and
    maybe more; the history is the same. *)
Definition extends {G} (w w' : world G) : Prop :=
  (exists ext, heap w' = heap w ++ ext)
  /\ best_fitness_history w' = best_fitness_history w.

(** ** What mutation may change *)

(** The item [f'] is the item [f] moved or turned: the same name and flag
    [movable], the same dimensions or the two exchanged. *)
Definition same_item (f f' : Furniture.t) : Prop :=
  Furniture.name f' = Furniture.name f
  /\ Furniture.movable f' = Furniture.movable f
  /\ ((Furniture.width f' = Furniture.width f
       /\ Furniture.length f' = Furniture.length f)
      \/ (Furniture.width f' = Furniture.length f
          /\ Furniture.length f' = Furniture.width f)).

(** The later world has the objects of the earlier one, those behind the
    references [ls] maybe moved or turned, the others as they were; the
    history is the same. *)
Definition mutated_in {G} (ls : list nat) (w w' : world G) : Prop :=
  List.length (heap w') = List.length (heap w)
  /\ best_fitness_history w' = best_fitness_history w
  /\ forall l, same_item (heap w !!! l) (heap w' !!! l)
       /\ (~ In l ls -> heap w' !!! l = heap w !!! l).

(** ** A source of randomness to run the program with

    A linear congruential generator; a sample of [k] positions out of [n] is
    a run of [k] consecutive positions. *)

Definition lcg (g : N) : N := ((g * 1103515245 + 12345) mod 2147483648)%N.

Definition lcg_float (g : N) : Q * N :=
  let g' := lcg g in (Z.of_N g' # 2147483648, g').

Definition lcg_sample (n k : nat) (g : N) : list nat * N :=
  (seq (N.to_nat (g mod N.of_nat (n - k + 1))) k, lcg g).

(** ** What a tournament returns *)

(** [winner] is the individual with the highest score among three distinct
    positions of the population. *)
Definition tournament_winner (population : list (list nat)) (fitness_scores : list Q)
    (winner : list nat) : Prop :=
  exists (indices : list nat) (winner_idx : nat),
    List.length indices = 3%nat
    /\ NoDup indices
    /\ Forall (fun i => (i < List.length population)%nat) indices
    /\ In winner_idx indices
    /\ population !! winner_idx = Some winner
    /\ Forall (fun i => fitness_scores !!! i <= fitness_scores !!! winner_idx) indices.

(** ** What the specification says of the elite *)

(** One insertion of a stable descending sort of positions by score: the
    position [i] goes behind every position whose score is not smaller. *)
Fixpoint insert_descending (scores : list Q) (i : nat) (sorted : list nat) : list nat :=
  match sorted with
  | [] => [i]
  | j :: rest =>
      if Qlt_bool (scores !!! j) (scores !!! i) then i :: j :: rest
      else j :: insert_descending scores i rest
  end.

(** The positions by descending score, ties in the order of the population
    (the earlier slot first), as the specification words the selection. *)
Definition stable_descending_indices (scores : list Q) : list nat :=
  fold_left (fun sorted i => insert_descending scores i sorted)
    (seq 0 (List.length scores)) [].

(** The order of [insertion_argsort]: [i] stands before [j] when its score
    is lower, or when the scores are equal and [i] is the earlier slot. *)
Definition sorts_before (scores : list Q) (i j : nat) : Prop :=
  scores !!! i < scores !!! j
  \/ (scores !!! j == scores !!! i /\ (i < j)%nat).

(** [copy] is a deep copy, in the world [w'], of the individual [ind] of the
    world [w]: the same attribute values, in objects that [w] does not
    have. *)
Definition deep_copy_of {G} (w w' : world G) (ind copy : list nat) : Prop :=
  map (fun l => heap w' !!! l) copy = map (fun l => heap w !!! l) ind
  /\ Forall (fun l => (List.length (heap w) <= l < List.length (heap w'))%nat) copy.

(** ** Runs of the generational loop *)

Section Runs.

Context {G : Type} `{RandomSource G} {sorter : ArgSort}.

Variable self : GeneticLayoutOptimizer.

(** The first [k] rounds of the loop of lines 176-212, with the population
    they leave. *)
Fixpoint generations_prefix (k : nat) (population : list (list nat))
    (best_individual : option (list nat)) (best_fitness : Q)
    : M G (list (list nat) * (option (list nat) * Q)) :=
  match k with
  | O => ret (population, (best_individual, best_fitness))
  | S k' =>
      st <- generation self population best_individual best_fitness ;;
      generations_prefix k' st.1 st.2.1 st.2.2
  end.

(** [optimize] up to the start of generation [k]: the population that
    generation [k] evaluates and the best individual and fitness so far. *)
Definition state_after (k : nat) : M G (list (list nat) * (option (list nat) * Q)) :=
  population <- initialize_population self ;;
  reset_history ;;;
  generations_prefix k population None 0.

(** A population of [population_size] individuals with one item for every
    catalog entry. *)
Definition population_ok (population : list (list nat)) : Prop :=
  List.length population = population_size self
  /\ Forall (fun ind => List.length ind = List.length (furniture_list self))
       population.

(** The grid of the room has no negative dimension. *)
Definition room_ok : Prop :=
  (0 <= py_int (room_width self * grid_size)
   /\ 0 <= py_int (room_length self * grid_size))%Z.

(** Every individual of the population has a fitness, which is 0. *)
Definition all_fitness_zero (w : world G) (population : list (list nat)) : Prop :=
  Forall (fun ind =>
    exists f, calculate_fitness self (deref (heap w) ind) = Ok f /\ f == 0)
    population.

End Runs.

(** * Theorems *)

(** ** Rotation *)

Lemma rotate_orientation f :
  Furniture.orientation (Furniture.rotate f) = ((Furniture.orientation f + 90) mod 360)%Z.
Proof. unfold Furniture.rotate. now destruct (_ || _). Qed.

(** Two calls of [rotate] from a new item: the first exchanges the
    dimensions on reaching 90, the second leaves them exchanged on reaching
    180; the third exchanges them back on reaching 270. *)
Lemma rotate_n_from_init name w l :
  dimensions (Furniture.rotate_n 1 (Furniture.init name w l)) = (l, w)
  /\ dimensions (Furniture.rotate_n 2 (Furniture.init name w l)) = (l, w)
  /\ dimensions (Furniture.rotate_n 3 (Furniture.init name w l)) = (w, l)
  /\ dimensions (Furniture.rotate_n 4 (Furniture.init name w l)) = (w, l).
Proof. repeat split. Qed.

(** C1 (the code departs from the claim): after two calls of [rotate] a new
    item of width 1 and length 2 is at orientation 180 with width 2 and
    length 1, where the dimensions of the specification at 180 are the base
    ones, 1 and 2; after three calls it is at 270 with its base dimensions,
    where the specification exchanges them. *)
Theorem rotate_twice_dimensions_differ :
  let f := Furniture.init "Bed" 1 2 in
  Furniture.orientation (Furniture.rotate_n 2 f) = 180%Z
  /\ dimensions (Furniture.rotate_n 2 f) = (2, 1)
  /\ effective_dimensions 1 2 180 = (1, 2)
  /\ Furniture.orientation (Furniture.rotate_n 3 f) = 270%Z
  /\ dimensions (Furniture.rotate_n 3 f) = (1, 2)
  /\ effective_dimensions 1 2 270 = (2, 1).
Proof. repeat split. Qed.

(** C2: for an item at orientation 0, 90, 180 or 270, four calls of
    [rotate] give back the item: same width, same length, same orientation
    (and every other attribute). *)
Theorem rotate_four_times_identity (f : Furniture.t) :
  In (Furniture.orientation f) [0; 90; 180; 270]%Z ->
  Furniture.rotate_n 4 f = f
  /\ Furniture.width (Furniture.rotate_n 4 f) = Furniture.width f
  /\ Furniture.length (Furniture.rotate_n 4 f) = Furniture.length f
  /\ Furniture.orientation (Furniture.rotate_n 4 f) = Furniture.orientation f.
Proof.
  intros Ho.
  assert (E : Furniture.rotate_n 4 f = f).
  { destruct f as [n w l m x y o]; simpl in Ho.
    destruct Ho as [<- | [<- | [<- | [<- | []]]]]; reflexivity. }
  rewrite E; auto.
Qed.

Lemma rotate_four_times_identity_witness :
  Furniture.rotate_n 4 (Furniture.mk "Sofa" (3 # 2) 2 true 1 1 270)
  = Furniture.mk "Sofa" (3 # 2) 2 true 1 1 270.
Proof.
  apply (rotate_four_times_identity (Furniture.mk "Sofa" (3 # 2) 2 true 1 1 270)).
  simpl; auto.
Defined.

(** ** Numbers *)

Lemma Qlt_bool_iff a b : Qlt_bool a b = true <-> a < b.
Proof.
  unfold Qlt_bool. rewrite negb_true_iff. split.
  - intros Hb. apply Qnot_le_lt. intros Hle.
    apply Qle_bool_iff in Hle. congruence.
  - intros Hlt. destruct (Qle_bool b a) eqn:E; [|reflexivity].
    apply Qle_bool_iff in E. lra.
Qed.

Lemma Qlt_bool_false a b : Qlt_bool a b = false <-> b <= a.
Proof.
  unfold Qlt_bool. rewrite negb_false_iff. apply Qle_bool_iff.
Qed.

Lemma Qnat_S n : Qnat (S n) == Qnat n + 1.
Proof.
  unfold Qnat. rewrite Nat2Z.inj_succ, <- Z.add_1_r, inject_Z_plus. reflexivity.
Qed.

Lemma Qnat_add n m : Qnat (n + m) == Qnat n + Qnat m.
Proof. unfold Qnat. rewrite Nat2Z.inj_add, inject_Z_plus. reflexivity. Qed.

Lemma Qnat_nonneg n : 0 <= Qnat n.
Proof. unfold Qnat, Qle; simpl. lia. Qed.

Lemma py_max0_nonneg s : 0 <= py_max0 s.
Proof.
  unfold py_max0. destruct (Qlt_bool 0 s) eqn:E.
  - apply Qlt_bool_iff in E. lra.
  - lra.
Qed.

(** ** Overlap tests and penalties *)

Lemma rects_overlapb_iff a b : rects_overlapb a b = true <-> rects_overlap a b.
Proof.
  unfold rects_overlapb, rects_overlap.
  rewrite !andb_true_iff, !Qlt_bool_iff. tauto.
Qed.

Lemma overlaps_fixed_rect f e :
  overlaps_fixed f e = rects_overlapb (furniture_rect f) (element_rect e).
Proof.
  unfold overlaps_fixed, rects_overlapb; simpl.
  now rewrite <- !andb_assoc.
Qed.

Lemma overlaps_furniture_rect f1 f2 :
  overlaps_furniture f1 f2 = rects_overlapb (furniture_rect f1) (furniture_rect f2).
Proof.
  unfold overlaps_furniture, rects_overlapb; simpl.
  now rewrite <- !andb_assoc.
Qed.

(** A loop whose every round lowers the score by [c] times a count lowers
    it by [c] times the sum of the counts. *)
Lemma fold_left_linear {A} (g : Q -> A -> Q) (k : A -> nat) (c : Q) :
  (forall s a, g s a == s + c * Qnat (k a)) ->
  forall l s, fold_left g l s == s + c * Qnat (list_sum (map k l)).
Proof.
  intros Hg l. induction l as [|a l IH]; intros s; simpl.
  - unfold Qnat; simpl. ring.
  - rewrite IH, Hg, Qnat_add. ring.
Qed.

Lemma filter_length_sum {A} (p : A -> bool) (l : list A) :
  List.length (List.filter p l) = list_sum (map (fun a => if p a then 1%nat else 0%nat) l).
Proof.
  induction l as [|a l IH]; simpl; [reflexivity|].
  destruct (p a); simpl; lia.
Qed.

Lemma fold_left_conditional {A} (p : A -> bool) (c : Q) (l : list A) (s : Q) :
  fold_left (fun s a => if p a then s + c else s) l s
  == s + c * Qnat (List.length (List.filter p l)).
Proof.
  rewrite filter_length_sum.
  apply (fold_left_linear _ (fun a => if p a then 1%nat else 0%nat)).
  intros s' a. destruct (p a); unfold Qnat; simpl; ring.
Qed.

Lemma filter_list_prod_length {A B} (p : A * B -> bool) (l : list A) (l' : list B) :
  List.length (List.filter p (list_prod l l'))
  = list_sum (map (fun a => List.length (List.filter (fun b => p (a, b)) l')) l).
Proof.
  induction l as [|a l IH]; simpl; [reflexivity|].
  rewrite List.filter_app, length_app, IH. f_equal.
  clear. induction l' as [|b l' IH]; simpl; [reflexivity|].
  destruct (p (a, b)); simpl; now rewrite IH.
Qed.

Lemma fixed_overlap_loop_count individual elements s :
  fixed_overlap_loop individual elements s
  == s - 20 * Qnat (fixed_overlap_count individual elements).
Proof.
  unfold fixed_overlap_loop, fixed_overlap_count.
  rewrite filter_list_prod_length.
  rewrite (fold_left_linear _
    (fun f => List.length (List.filter
       (fun e => rects_overlapb (furniture_rect f) (element_rect e)) elements)) (-20)).
  - simpl. ring.
  - intros s' f.
    rewrite <- (fold_left_conditional
      (fun e => rects_overlapb (furniture_rect f) (element_rect e)) (-20)).
    clear. revert s'. induction elements as [|e l IH]; intros s'; simpl; [reflexivity|].
    rewrite overlaps_fixed_rect.
    destruct (rects_overlapb _ _); rewrite <- IH; reflexivity.
Qed.

Lemma fold_left_map_arg {A B C} (f : A -> C -> A) (g : B -> C) (l : list B) (s : A) :
  fold_left f (map g l) s = fold_left (fun s b => f s (g b)) l s.
Proof. revert s. induction l as [|b l IH]; intros s; simpl; [reflexivity|apply IH]. Qed.

(** Reading the tail of a list through its positions gives the tail. *)
Lemma map_lookup_total_seq {A} `{!Inhabited A} (p l : list A) :
  map (fun j => (p ++ l) !!! j) (seq (List.length p) (List.length l)) = l.
Proof.
  revert p. induction l as [|a l IH]; intros p; simpl; [reflexivity|].
  rewrite list_lookup_total_middle by reflexivity. f_equal.
  specialize (IH (p ++ [a])).
  rewrite length_app, Nat.add_1_r, <- app_assoc in IH. exact IH.
Qed.

(** The loop over positions [i < j], started behind a prefix [p], visits
    the unordered pairs of the rest. *)
Lemma pair_loop_from_prefix (p l : list Furniture.t) (s : Q) :
  let full := p ++ l in
  let n := List.length full in
  fold_left (fun score i =>
    fold_left (fun score j =>
      if overlaps_furniture (full !!! i) (full !!! j) then score - 15 else score)
      (seq (i + 1) (n - (i + 1))) score)
    (seq (List.length p) (List.length l)) s
  == s - 15 * Qnat (furniture_overlap_count l).
Proof.
  revert p s. induction l as [|a l IH]; intros p s; cbn zeta.
  - unfold furniture_overlap_count, Qnat; simpl. ring.
  - cbn [List.length seq fold_left].
    rewrite list_lookup_total_middle by reflexivity.
    replace (List.length (p ++ a :: l) - (List.length p + 1))%nat
      with (List.length l) by (rewrite length_app; simpl; lia).
    assert (E : (p ++ [a]) ++ l = p ++ a :: l) by (now rewrite <- app_assoc).
    assert (El : List.length (p ++ [a]) = S (List.length p))
      by (rewrite length_app; simpl; lia).
    specialize (IH (p ++ [a])). cbn zeta in IH.
    rewrite E, El in IH. rewrite IH.
    pose proof (map_lookup_total_seq (p ++ [a]) l) as Hm.
    rewrite E, El in Hm.
    rewrite Nat.add_1_r.
    rewrite <- (fold_left_map_arg
      (fun score f2 => if overlaps_furniture a f2 then score - 15 else score)
      (fun j => (p ++ a :: l) !!! j)).
    rewrite Hm.
    assert (Hin : fold_left
      (fun score f2 => if overlaps_furniture a f2 then score - 15 else score) l s
      == s + (-15) * Qnat (List.length (List.filter
           (fun f2 => rects_overlapb (furniture_rect a) (furniture_rect f2)) l))).
    { rewrite <- fold_left_conditional. clear. revert s.
      induction l as [|b l IH]; intros s; simpl; [reflexivity|].
      rewrite overlaps_furniture_rect.
      destruct (rects_overlapb _ _); rewrite <- IH; reflexivity. }
    rewrite Hin.
    unfold furniture_overlap_count. simpl.
    rewrite List.filter_app, length_app, Qnat_add.
    assert (Hf : List.length (List.filter
        (fun p0 : Furniture.t * Furniture.t =>
           rects_overlapb (furniture_rect p0.1) (furniture_rect p0.2))
        (map (pair a) l))
      = List.length (List.filter
        (fun f2 => rects_overlapb (furniture_rect a) (furniture_rect f2)) l)).
    { clear. induction l as [|b l IH]; simpl; [reflexivity|].
      destruct (rects_overlapb _ _); simpl; now rewrite IH. }
    rewrite Hf. ring.
Qed.

Lemma furniture_overlap_loop_count individual s :
  furniture_overlap_loop individual s
  == s - 15 * Qnat (furniture_overlap_count individual).
Proof. exact (pair_loop_from_prefix [] individual s). Qed.

Lemma wall_loop_count self individual s :
  wall_loop self individual s == s + 5 * Qnat (near_wall_count self individual).
Proof. unfold wall_loop, near_wall_count. apply fold_left_conditional. Qed.

Lemma overlap_and_wall_score_formula self individual :
  overlap_and_wall_score self individual
  == 100 - 20 * Qnat (fixed_overlap_count individual (fixed_elements self))
         - 15 * Qnat (furniture_overlap_count individual)
         + 5 * Qnat (near_wall_count self individual).
Proof.
  unfold overlap_and_wall_score.
  rewrite wall_loop_count, furniture_overlap_loop_count, fixed_overlap_loop_count.
  reflexivity.
Qed.

(** ** The occupancy grid keeps its size *)

Definition cells (grid : list (list bool)) : nat := list_sum (map List.length grid).

Lemma cells_imap (f : nat -> list bool -> list bool) (grid : list (list bool)) :
  (forall i row, List.length (f i row) = List.length row) ->
  cells (imap f grid) = cells grid.
Proof.
  revert f. induction grid as [|row grid IH]; intros f Hf; [reflexivity|].
  unfold cells in *. simpl. rewrite Hf. f_equal. apply IH.
  intros i row'. apply Hf.
Qed.

Lemma cells_slice_assign rows cols y1 y2 x1 x2 grid :
  cells (slice_assign rows cols y1 y2 x1 x2 grid) = cells grid.
Proof.
  unfold slice_assign. apply cells_imap. intros i row.
  destruct (in_range _ _ i); [apply length_imap|reflexivity].
Qed.

Lemma cells_add_fixed_elements rows cols elements grid :
  cells (add_fixed_elements rows cols elements grid) = cells grid.
Proof.
  unfold add_fixed_elements. revert grid.
  induction elements as [|e l IH]; intros grid; simpl; [reflexivity|].
  rewrite IH. apply cells_slice_assign.
Qed.

Lemma cells_add_furniture rows cols individual grid :
  cells (add_furniture rows cols individual grid) = cells grid.
Proof.
  unfold add_furniture. revert grid.
  induction individual as [|f l IH]; intros grid; simpl; [reflexivity|].
  rewrite IH. apply cells_slice_assign.
Qed.

Lemma cells_zeros rows cols : cells (repeat (repeat false cols) rows) = (rows * cols)%nat.
Proof.
  unfold cells. induction rows as [|r IH]; simpl; [reflexivity|].
  rewrite repeat_length, IH. reflexivity.
Qed.

Lemma empty_cells_le_cells grid : (empty_cells grid <= cells grid)%nat.
Proof.
  unfold empty_cells, cells. induction grid as [|row grid IH]; simpl; [lia|].
  pose proof (length_filter (fun c : bool => c = false) row). lia.
Qed.

Lemma occupancy_grid_cells self individual rows cols grid :
  occupancy_grid self individual = Ok (rows, cols, grid) ->
  cells grid = (rows * cols)%nat.
Proof.
  unfold occupancy_grid. destruct (_ || _); [discriminate|].
  intros [= <- <- <-].
  rewrite cells_add_furniture, cells_add_fixed_elements. apply cells_zeros.
Qed.

Lemma occupancy_grid_raises self individual e :
  occupancy_grid self individual = Raise e ->
  e = ValueError
  /\ (py_int (room_width self * grid_size) < 0
      \/ py_int (room_length self * grid_size) < 0)%Z.
Proof.
  unfold occupancy_grid. destruct (_ || _) eqn:E; [|discriminate].
  intros [= <-]. split; [reflexivity|].
  apply orb_true_iff in E. rewrite !Z.ltb_lt in E. exact E.
Qed.

Lemma walkability_range rows cols grid w :
  cells grid = (rows * cols)%nat ->
  walkability rows cols grid = Some w -> 0 <= w /\ w <= 1.
Proof.
  intros Hc. unfold walkability.
  destruct (rows * cols)%nat as [|t] eqn:Et; [discriminate|].
  intros [= <-].
  pose proof (empty_cells_le_cells grid) as Hle. rewrite Hc in Hle.
  assert (Hpos : 0 < inject_Z (Z.of_nat (S t))).
  { unfold Qlt; simpl. lia. }
  assert (Hle' : inject_Z (Z.of_nat (empty_cells grid)) <= inject_Z (Z.of_nat (S t))).
  { rewrite <- Zle_Qle. lia. }
  assert (Hnn : 0 <= inject_Z (Z.of_nat (empty_cells grid))).
  { unfold Qle; simpl. lia. }
  split.
  - apply Qle_shift_div_l; [exact Hpos|]. lra.
  - apply Qle_shift_div_r; [exact Hpos|]. lra.
Qed.

(** The score before the clamp, whenever it is a number. *)
Lemma raw_score_formula self individual score :
  raw_score self individual = Ok (Some score) ->
  exists w, (0 <= w /\ w <= 1)
    /\ score == 100 - 20 * Qnat (fixed_overlap_count individual (fixed_elements self))
                    - 15 * Qnat (furniture_overlap_count individual)
                    + 5 * Qnat (near_wall_count self individual)
                    + w * 30.
Proof.
  unfold raw_score.
  destruct (occupancy_grid self individual) as [[[rows cols] grid]|e] eqn:Eg;
    [|discriminate].
  destruct (walkability rows cols grid) as [w|] eqn:Ew; [|discriminate].
  intros [= <-]. exists w. split.
  - eapply walkability_range; [|exact Ew].
    eapply occupancy_grid_cells; exact Eg.
  - rewrite overlap_and_wall_score_formula. reflexivity.
Qed.

Lemma touching_rects_do_not_overlap a b :
  xmax a == xmin b \/ xmax b == xmin a \/ ymax a == ymin b \/ ymax b == ymin a ->
  ~ rects_overlap a b.
Proof. unfold rects_overlap. intros Ht Ho. lra. Qed.

Lemma rects_overlap_sym a b : rects_overlap a b <-> rects_overlap b a.
Proof. unfold rects_overlap. tauto. Qed.

(** C5: the two tests of [calculate_fitness] are the overlap of the
    specification ([a.min < b.max] and [a.max > b.min] on both axes), which
    rectangles sharing only an edge fail and which does not depend on the
    order of the two rectangles; the score before the clamp is 100, minus 20
    for every overlapping (item, fixed element) pair, minus 15 for every
    overlapping unordered pair of items, plus 5 for every item near a wall,
    plus 30 times the walkability: the penalties add up over all pairs
    without a cap. *)
Theorem overlap_penalties_stack_linearly (self : GeneticLayoutOptimizer)
    (individual : list Furniture.t) :
  (forall f e, overlaps_fixed f e = true
               <-> rects_overlap (furniture_rect f) (element_rect e))
  /\ (forall f1 f2, overlaps_furniture f1 f2 = true
               <-> rects_overlap (furniture_rect f1) (furniture_rect f2))
  /\ (forall a b, (xmax a == xmin b \/ xmax b == xmin a
                   \/ ymax a == ymin b \/ ymax b == ymin a) -> ~ rects_overlap a b)
  /\ (forall a b, rects_overlap a b <-> rects_overlap b a)
  /\ furniture_overlap_loop individual
       (fixed_overlap_loop individual (fixed_elements self) 100)
     == 100 - 20 * Qnat (fixed_overlap_count individual (fixed_elements self))
            - 15 * Qnat (furniture_overlap_count individual)
  /\ match raw_score self individual with
     | Ok (Some score) =>
         exists w, (0 <= w /\ w <= 1)
           /\ score == 100
                - 20 * Qnat (fixed_overlap_count individual (fixed_elements self))
                - 15 * Qnat (furniture_overlap_count individual)
                + 5 * Qnat (near_wall_count self individual)
                + w * 30
     | _ => True
     end.
Proof.
  split; [|split; [|split; [|split; [|split]]]].
  - intros f e. rewrite overlaps_fixed_rect. apply rects_overlapb_iff.
  - intros f1 f2. rewrite overlaps_furniture_rect. apply rects_overlapb_iff.
  - apply touching_rects_do_not_overlap.
  - apply rects_overlap_sym.
  - rewrite furniture_overlap_loop_count, fixed_overlap_loop_count. reflexivity.
  - destruct (raw_score self individual) as [[score|]|e] eqn:E; try exact I.
    apply raw_score_formula. exact E.
Qed.

(** ** The fitness is not negative and has no upper bound *)

Lemma calculate_fitness_result self individual :
  match calculate_fitness self individual with
  | Ok fitness => 0 <= fitness
  | Raise e =>
      e = ValueError
      /\ (py_int (room_width self * grid_size) < 0
          \/ py_int (room_length self * grid_size) < 0)%Z
  end.
Proof.
  unfold calculate_fitness, raw_score.
  destruct (occupancy_grid self individual) as [[[rows cols] grid]|e] eqn:Eg.
  - destruct (walkability rows cols grid) as [w|].
    + apply py_max0_nonneg.
    + lra.
  - eapply occupancy_grid_raises. exact Eg.
Qed.

(** The room of one unit by one unit without fixed elements. *)
Definition unit_room : GeneticLayoutOptimizer :=
  optimizer_init 1 1 [] None 0 0 0 0.

(** An item without extent in the corner of the room. *)
Definition point_item : Furniture.t := Furniture.init "" 0 0.

Lemma filter_all_false {A} (p : A -> bool) (l : list A) :
  (forall a, In a l -> p a = false) -> List.filter p l = [].
Proof.
  induction l as [|a l IH]; intros Hp; simpl; [reflexivity|].
  rewrite (Hp a) by (left; reflexivity). apply IH.
  intros b Hb. apply Hp. right. exact Hb.
Qed.

Lemma filter_all_true {A} (p : A -> bool) (l : list A) :
  (forall a, In a l -> p a = true) -> List.filter p l = l.
Proof.
  induction l as [|a l IH]; intros Hp; simpl; [reflexivity|].
  rewrite (Hp a) by (left; reflexivity). f_equal. apply IH.
  intros b Hb. apply Hp. right. exact Hb.
Qed.

Lemma unordered_pairs_In {A} (l : list A) a b :
  In (a, b) (unordered_pairs l) -> In a l /\ In b l.
Proof.
  induction l as [|c l IH]; simpl; [tauto|].
  rewrite in_app_iff, in_map_iff. intros [[d [[= <- <-] Hd]]|Hin].
  - tauto.
  - apply IH in Hin. tauto.
Qed.

Lemma point_items_fitness n :
  exists fitness,
    calculate_fitness unit_room (repeat point_item n) = Ok fitness
    /\ 100 + 5 * Qnat n <= fitness.
Proof.
  pose proof (calculate_fitness_result unit_room (repeat point_item n)) as Hres.
  unfold calculate_fitness in *.
  destruct (raw_score unit_room (repeat point_item n)) as [[score|]|e] eqn:E.
  - exists (py_max0 score). split; [reflexivity|].
    destruct (raw_score_formula _ _ _ E) as [w [[Hw0 Hw1] Hs]].
    assert (Hf : fixed_overlap_count (repeat point_item n) (fixed_elements unit_room) = 0%nat).
    { unfold fixed_overlap_count. simpl. clear.
      induction n as [|k IHk]; simpl; [reflexivity|exact IHk]. }
    assert (Hp : furniture_overlap_count (repeat point_item n) = 0%nat).
    { unfold furniture_overlap_count. rewrite filter_all_false; [reflexivity|].
      intros [a b] Hab. apply unordered_pairs_In in Hab as [Ha Hb].
      apply repeat_spec in Ha, Hb. subst. reflexivity. }
    assert (Hn : near_wall_count unit_room (repeat point_item n) = n).
    { unfold near_wall_count. rewrite filter_all_true; [apply repeat_length|].
      intros a Ha. apply repeat_spec in Ha. subst. reflexivity. }
    rewrite Hf, Hp, Hn in Hs.
    assert (Hs' : 100 + 5 * Qnat n <= score).
    { change (Qnat 0) with 0 in Hs. lra. }
    pose proof (Qnat_nonneg n).
    unfold py_max0. destruct (Qlt_bool 0 score) eqn:Epos; [exact Hs'|].
    apply Qlt_bool_false in Epos. lra.
  - exfalso. unfold raw_score in E.
    destruct (occupancy_grid unit_room (repeat point_item n))
      as [[[r c] g]|e'] eqn:Eg; [|discriminate].
    unfold occupancy_grid in Eg. destruct (_ || _); [discriminate|].
    injection Eg as <- <- <-.
    unfold walkability in E.
    destruct (Z.to_nat _ * Z.to_nat _)%nat eqn:Em; [|discriminate].
    vm_compute in Em. discriminate.
  - exfalso. unfold raw_score in E.
    destruct (occupancy_grid unit_room (repeat point_item n)) as [[[r c] g]|e'] eqn:Eg.
    + destruct (walkability r c g); discriminate.
    + apply occupancy_grid_raises in Eg as [_ [Hlt|Hlt]]; vm_compute in Hlt; discriminate.
Qed.

(** C3: whatever the items, the room and the fixed elements,
    [calculate_fitness] returns a fitness that is at least 0 (it raises only
    on a room whose grid would have a negative dimension); and the fitness has
    no upper bound: every bound is exceeded by some arrangement. *)
Theorem calculate_fitness_nonnegative_unbounded (self : GeneticLayoutOptimizer)
    (individual : list Furniture.t) :
  match calculate_fitness self individual with
  | Ok fitness => 0 <= fitness
  | Raise e =>
      e = ValueError
      /\ (py_int (room_width self * grid_size) < 0
          \/ py_int (room_length self * grid_size) < 0)%Z
  end
  /\ forall bound : Q, exists self' individual' fitness,
       calculate_fitness self' individual' = Ok fitness /\ bound < fitness.
Proof.
  split; [apply calculate_fitness_result|].
  intros bound.
  destruct (point_items_fitness (Z.to_nat (Qceiling bound))) as [fitness [Hf Hle]].
  exists unit_room, (repeat point_item (Z.to_nat (Qceiling bound))), fitness.
  split; [exact Hf|].
  pose proof (Qle_ceiling bound) as Hc.
  pose proof (Qnat_nonneg (Z.to_nat (Qceiling bound))) as Hn.
  assert (Hge : inject_Z (Qceiling bound) <= Qnat (Z.to_nat (Qceiling bound))).
  { unfold Qnat. rewrite <- Zle_Qle. lia. }
  lra.
Qed.

(** ** Reasoning about computations *)

Section Reasoning.

Context {G : Type} `{RandomSource G} {sorter : ArgSort}.

(** [m] returns from [w], and its value and world satisfy [Q]. *)
Definition returns {A} (m : M G A) (w : world G) (Q : A -> world G -> Prop) : Prop :=
  exists a w', m w = (Ok a, w') /\ Q a w'.

Lemma returns_ret {A} (a : A) w (Q : A -> world G -> Prop) :
  Q a w -> returns (ret a) w Q.
Proof. intros HQ. exists a, w. split; [reflexivity|exact HQ]. Qed.

Lemma returns_bind {A B} (m : M G A) (k : A -> M G B) w (Q : B -> world G -> Prop) :
  returns m w (fun a w' => returns (k a) w' Q) -> returns (bind m k) w Q.
Proof.
  intros (a & w' & Hm & (b & w'' & Hk & HQ)).
  exists b, w''. split; [|exact HQ]. unfold bind. rewrite Hm. exact Hk.
Qed.

Lemma returns_weaken {A} (m : M G A) w (Q Q' : A -> world G -> Prop) :
  returns m w Q -> (forall a w', Q a w' -> Q' a w') -> returns m w Q'.
Proof. intros (a & w' & Hm & HQ) Himp. exists a, w'. auto. Qed.

Lemma returns_lift_result {A} (r : result A) (a : A) w (Q : A -> world G -> Prop) :
  r = Ok a -> Q a w -> returns (lift_result r) w Q.
Proof. intros -> HQ. exists a, w. split; [reflexivity|exact HQ]. Qed.

Lemma bind_ok {A B} (m : M G A) (k : A -> M G B) w a w' :
  m w = (Ok a, w') -> bind m k w = k a w'.
Proof. intros Hm. unfold bind. now rewrite Hm. Qed.

Lemma bind_raise {A B} (m : M G A) (k : A -> M G B) w e w' :
  m w = (Raise e, w') -> bind m k w = (Raise e, w').
Proof. intros Hm. unfold bind. now rewrite Hm. Qed.

(** A loop over a list returns when every round does; [I] holds between
    the rounds, [R] relates the world of a round to every later world and
    [P] is kept along [R]. *)
Lemma returns_for_each {A B} (f : A -> M G B) (l : list A)
    (I : world G -> Prop) (R : world G -> world G -> Prop)
    (P : A -> B -> world G -> Prop) :
  (forall w, R w w) ->
  (forall w1 w2 w3, R w1 w2 -> R w2 w3 -> R w1 w3) ->
  (forall a b w w', P a b w -> R w w' -> P a b w') ->
  (forall a w, In a l -> I w ->
     returns (f a) w (fun b w' => P a b w' /\ R w w' /\ I w')) ->
  forall w, I w ->
    returns (for_each f l) w
      (fun bs w' => Forall2 (fun a b => P a b w') l bs /\ R w w' /\ I w').
Proof.
  intros Hrefl Htrans Hstable. induction l as [|a l IH]; intros Hf w HI; simpl.
  - apply returns_ret. auto.
  - apply returns_bind.
    eapply returns_weaken; [apply Hf; [left; reflexivity|exact HI]|].
    intros b w1 (HP & HR1 & HI1). apply returns_bind.
    eapply returns_weaken; [apply IH; [|exact HI1]|].
    + intros a' w' Ha'. apply Hf. right. exact Ha'.
    + intros bs w2 (HF & HR2 & HI2). apply returns_ret.
      split; [|split; [eauto|exact HI2]].
      constructor; [eapply Hstable; eauto|exact HF].
Qed.

Lemma returns_repeat_times {A} (m : M G A) (n : nat)
    (I : world G -> Prop) (R : world G -> world G -> Prop)
    (P : A -> world G -> Prop) :
  (forall w, R w w) ->
  (forall w1 w2 w3, R w1 w2 -> R w2 w3 -> R w1 w3) ->
  (forall a w w', P a w -> R w w' -> P a w') ->
  (forall w, I w -> returns m w (fun a w' => P a w' /\ R w w' /\ I w')) ->
  forall w, I w ->
    returns (repeat_times n m) w
      (fun l w' => List.length l = n /\ Forall (fun a => P a w') l /\ R w w' /\ I w').
Proof.
  intros Hrefl Htrans Hstable Hm. induction n as [|n IH]; intros w HI; simpl.
  - apply returns_ret. auto.
  - apply returns_bind.
    eapply returns_weaken; [apply Hm; exact HI|].
    intros a w1 (HP & HR1 & HI1). apply returns_bind.
    eapply returns_weaken; [apply IH; exact HI1|].
    intros l w2 (Hlen & HF & HR2 & HI2). apply returns_ret.
    split; [simpl; now rewrite Hlen|].
    split; [|split; [eauto|exact HI2]].
    constructor; [eapply Hstable; eauto|exact HF].
Qed.

(** *** Computations that leave the history alone *)

Definition keeps_history {A} (m : M G A) : Prop :=
  forall w, best_fitness_history (m w).2 = best_fitness_history w.

Lemma keeps_history_ret {A} (a : A) : keeps_history (ret a).
Proof. intros w. reflexivity. Qed.

Lemma keeps_history_raise {A} (e : exn) : keeps_history (@raise G A e).
Proof. intros w. reflexivity. Qed.

Lemma keeps_history_lift_result {A} (r : result A) : keeps_history (lift_result r).
Proof. intros w. reflexivity. Qed.

Lemma keeps_history_bind {A B} (m : M G A) (k : A -> M G B) :
  keeps_history m -> (forall a, keeps_history (k a)) -> keeps_history (bind m k).
Proof.
  intros Hm Hk w. unfold bind. specialize (Hm w).
  destruct (m w) as [[a|e] w']; simpl in *; [|exact Hm].
  rewrite Hk. exact Hm.
Qed.

Lemma keeps_history_alloc f : keeps_history (alloc f).
Proof. intros w. reflexivity. Qed.

Lemma keeps_history_load l : keeps_history (load l).
Proof. intros w. reflexivity. Qed.

Lemma keeps_history_store l f : keeps_history (store l f).
Proof. intros w. reflexivity. Qed.

Lemma keeps_history_random_random : keeps_history random_random.
Proof. intros w. unfold random_random. now destruct (next_float (rng w)). Qed.

Lemma keeps_history_random_sample n k : keeps_history (random_sample n k).
Proof.
  intros w. unfold random_sample. destruct (k <=? n)%nat; [|reflexivity].
  now destruct (next_sample n k (rng w)).
Qed.

Lemma keeps_history_for_each {A B} (f : A -> M G B) (l : list A) :
  (forall a, keeps_history (f a)) -> keeps_history (for_each f l).
Proof.
  intros Hf. induction l as [|a l IH]; simpl.
  - apply keeps_history_ret.
  - apply keeps_history_bind; [apply Hf|]. intros b.
    apply keeps_history_bind; [exact IH|]. intros bs. apply keeps_history_ret.
Qed.

Lemma keeps_history_repeat_times {A} (m : M G A) (n : nat) :
  keeps_history m -> keeps_history (repeat_times n m).
Proof.
  intros Hm. induction n as [|n IH]; simpl.
  - apply keeps_history_ret.
  - apply keeps_history_bind; [exact Hm|]. intros a.
    apply keeps_history_bind; [exact IH|]. intros l. apply keeps_history_ret.
Qed.

Lemma keeps_history_if {A} (b : bool) (m1 m2 : M G A) :
  keeps_history m1 -> keeps_history m2 -> keeps_history (if b then m1 else m2).
Proof. now destruct b. Qed.

Create HintDb keeps.

Hint Resolve keeps_history_ret keeps_history_raise keeps_history_lift_result
  keeps_history_alloc keeps_history_load keeps_history_store
  keeps_history_random_random keeps_history_random_sample
  keeps_history_if : keeps.

Ltac keeps :=
  repeat first
    [ progress intros
    | apply keeps_history_bind
    | apply keeps_history_for_each
    | apply keeps_history_repeat_times
    | solve [auto with keeps]
    | apply keeps_history_if ].

Lemma keeps_history_call_rotate l : keeps_history (call_rotate l).
Proof. unfold call_rotate. keeps. Qed.

Lemma keeps_history_call_set_position l x y : keeps_history (call_set_position l x y).
Proof. unfold call_set_position. keeps. Qed.

Lemma keeps_history_random_uniform a b : keeps_history (random_uniform a b).
Proof. unfold random_uniform. keeps. Qed.

Lemma keeps_history_deepcopy_furniture l : keeps_history (deepcopy_furniture l).
Proof. unfold deepcopy_furniture. keeps. Qed.

Hint Resolve keeps_history_call_rotate keeps_history_call_set_position
  keeps_history_random_uniform keeps_history_deepcopy_furniture : keeps.

Lemma keeps_history_deepcopy_memo memo ind : keeps_history (deepcopy_memo memo ind).
Proof.
  revert memo. induction ind as [|l ind IH]; intros memo; simpl.
  - keeps.
  - destruct (list_find _ memo) as [[? [? ?]]|]; keeps; apply IH.
Qed.

Lemma keeps_history_deepcopy ind : keeps_history (deepcopy ind).
Proof. apply keeps_history_deepcopy_memo. Qed.

Lemma keeps_history_fitness_of self ind : keeps_history (fitness_of self ind).
Proof. intros w. reflexivity. Qed.

Hint Resolve keeps_history_deepcopy keeps_history_fitness_of : keeps.

Lemma keeps_history_initialize_population self :
  keeps_history (initialize_population self).
Proof. unfold initialize_population, initialize_item. keeps. Qed.

Lemma keeps_history_select_parents population fitness_scores :
  keeps_history (select_parents population fitness_scores).
Proof. unfold select_parents, tournament. keeps. Qed.

Lemma keeps_history_crossover parent1 parent2 :
  keeps_history (crossover parent1 parent2).
Proof. unfold crossover. keeps. Qed.

Lemma keeps_history_mutate self ind : keeps_history (mutate self ind).
Proof. unfold mutate, mutate_item. keeps. Qed.

Lemma keeps_history_elitism self population fitness_scores :
  keeps_history (elitism self population fitness_scores).
Proof. unfold elitism. keeps. Qed.

Hint Resolve keeps_history_select_parents keeps_history_crossover
  keeps_history_mutate keeps_history_elitism : keeps.

Lemma keeps_history_breed self rounds population fitness_scores new_population :
  keeps_history (breed self rounds population fitness_scores new_population).
Proof.
  revert new_population. induction rounds as [|n IH]; intros np; simpl.
  - keeps.
  - keeps.
Qed.

Lemma keeps_history_next_population self population fitness_scores :
  keeps_history (next_population self population fitness_scores).
Proof. unfold next_population. keeps; apply keeps_history_breed. Qed.

End Reasoning.

(** ** [np.argmax] finds a maximum *)

Lemma argmax_from_spec (l pre : list Q) (best_i : nat) (best : Q) :
  (pre ++ l) !! best_i = Some best ->
  Forall (fun v => v <= best) pre ->
  exists m, (pre ++ l) !! argmax_from l (List.length pre) best_i best = Some m
            /\ Forall (fun v => v <= m) (pre ++ l).
Proof.
  revert pre best_i best. induction l as [|v l IH]; intros pre best_i best Hb Hpre; simpl.
  - exists best. rewrite app_nil_r in *. auto.
  - assert (E : (pre ++ [v]) ++ l = pre ++ v :: l) by (now rewrite <- app_assoc).
    assert (El : List.length (pre ++ [v]) = S (List.length pre))
      by (rewrite length_app; simpl; lia).
    destruct (Qlt_bool best v) eqn:Elt.
    + apply Qlt_bool_iff in Elt.
      specialize (IH (pre ++ [v]) (List.length pre) v).
      rewrite E, El in IH. apply IH.
      * now apply list_lookup_middle.
      * apply Forall_app. split.
        -- eapply Forall_impl; [exact Hpre|]. intros a Ha. simpl in Ha. lra.
        -- constructor; [lra|constructor].
    + apply Qlt_bool_false in Elt.
      specialize (IH (pre ++ [v]) best_i best).
      rewrite E, El in IH. apply IH; [exact Hb|].
      apply Forall_app. split; [exact Hpre|]. constructor; [exact Elt|constructor].
Qed.

Lemma argmax_spec (l : list Q) (idx : nat) :
  argmax l = Ok idx ->
  exists m, l !! idx = Some m /\ Forall (fun v => v <= m) l.
Proof.
  destruct l as [|v l]; simpl; [discriminate|]. intros [= <-].
  apply (argmax_from_spec l [v] 0 v); [reflexivity|].
  constructor; [lra|constructor].
Qed.

Lemma argmax_nonempty (l : list Q) :
  l <> [] -> exists idx, argmax l = Ok idx.
Proof. destruct l as [|v l]; [congruence|]. intros _. eexists. reflexivity. Qed.

Lemma index_Ok {A} (l : list A) i a : index l i = Ok a <-> l !! i = Some a.
Proof.
  unfold index. destruct (l !! i); split; intros E; inversion E; reflexivity.
Qed.

(** ** The history never decreases *)


Section History.

Context {G : Type} `{RandomSource G} {sorter : ArgSort}.

Variable self : GeneticLayoutOptimizer.

(** What lines 181-186 return and append. *)
Lemma track_best_spec population fitness_scores best_individual best_fitness
    (w : world G) :
  match track_best population fitness_scores best_individual best_fitness w with
  | (Ok best, w') =>
      exists idx m,
        argmax fitness_scores = Ok idx
        /\ fitness_scores !! idx = Some m
        /\ Forall (fun v => v <= m) fitness_scores
        /\ best.2 = (if Qlt_bool best_fitness m then m else best_fitness)
        /\ (Qlt_bool best_fitness m = false -> best.1 = best_individual)
        /\ best_fitness_history w' = best_fitness_history w ++ [best.2]
  | (Raise _, w') => best_fitness_history w' = best_fitness_history w
  end.
Proof.
  unfold track_best, bind, lift_result.
  destruct (argmax fitness_scores) as [idx|e] eqn:Ea; [|reflexivity].
  destruct (argmax_spec _ _ Ea) as [m [Hm Hmax]].
  assert (Ei : index fitness_scores idx = Ok m) by (now apply index_Ok).
  rewrite Ei.
  destruct (Qlt_bool best_fitness m) eqn:Elt.
  - destruct (index population idx) as [ind|e]; [|reflexivity].
    pose proof (keeps_history_deepcopy ind w) as Hk.
    destruct (deepcopy ind w) as [[copy|e] w1]; simpl in *; [|exact Hk].
    exists idx, m. rewrite Elt, Hk. repeat split; auto. discriminate.
  - simpl. exists idx, m. rewrite Elt. repeat split; auto.
Qed.



End History.

(** ** Initialization never fails *)

Lemma extends_refl {G} (w : world G) : extends w w.
Proof. split; [exists []; now rewrite app_nil_r|reflexivity]. Qed.

Lemma extends_trans {G} (w1 w2 w3 : world G) :
  extends w1 w2 -> extends w2 w3 -> extends w1 w3.
Proof.
  intros [[e1 H1] Hh1] [[e2 H2] Hh2]. split; [|congruence].
  exists (e1 ++ e2). rewrite H2, H1. now rewrite app_assoc.
Qed.

Lemma extends_lookup {G} (w w' : world G) (l : loc) :
  extends w w' -> (l < List.length (heap w))%nat ->
  (l < List.length (heap w'))%nat /\ heap w' !!! l = heap w !!! l.
Proof.
  intros [[ext He] _] Hl. rewrite He. split.
  - rewrite length_app. lia.
  - now apply lookup_total_app_l.
Qed.

Lemma store_last (h : list Furniture.t) (f f' : Furniture.t) :
  <[List.length h := f']> (h ++ [f]) = h ++ [f'].
Proof.
  rewrite insert_app_r_alt by lia. now rewrite Nat.sub_diag.
Qed.

Section Initialization.

Context {G : Type} `{RandomSource G} {sorter : ArgSort}.

Variable self : GeneticLayoutOptimizer.

(** Lines 33-45 on one catalog item: one new object, placed. *)
Lemma initialize_item_spec (furniture : Furniture.t) (w : world G) :
  returns (initialize_item self furniture) w
    (fun l w' =>
       ((l < List.length (heap w'))%nat /\ placed self furniture (heap w' !!! l))
       /\ extends w w' /\ True).
Proof.
  unfold returns, initialize_item, bind, alloc, random_uniform, random_random,
    call_rotate, call_set_position, load, store, ret, bind; simpl.
  pose proof (next_float_range (rng w)) as Hr0.
  destruct (next_float (rng w)) as [r g1]; simpl.
  destruct (Qlt_bool (1 # 2) r); simpl.
  all: rewrite ?list_lookup_total_middle by reflexivity.
  all: rewrite ?store_last; simpl.
  all: rewrite ?list_lookup_total_middle by reflexivity.
  all: pose proof (next_float_range g1) as Hr1.
  all: destruct (next_float g1) as [u g2]; simpl.
  all: pose proof (next_float_range g2) as Hr2.
  all: destruct (next_float g2) as [v g3]; simpl.
  all: rewrite ?list_lookup_total_middle by reflexivity.
  all: rewrite ?store_last.
  all: eexists _, _; split; [reflexivity|]; simpl.
  all: rewrite ?length_app; simpl.
  all: rewrite ?list_lookup_total_middle by reflexivity.
  all: repeat split; try lia; try (eexists; reflexivity).
  - exists u, v, (Furniture.rotate furniture). repeat split; tauto.
  - exists u, v, furniture. repeat split; tauto.
Qed.

(** An individual of the first population: one placed object for every
    catalog item, in the order of the catalog. *)
Definition individual_placed (w : world G) (ind : individual) : Prop :=
  Forall2 (fun furniture l =>
    (l < List.length (heap w))%nat /\ placed self furniture (heap w !!! l))
    (furniture_list self) ind.

Lemma individual_placed_extends (w w' : world G) ind :
  individual_placed w ind -> extends w w' -> individual_placed w' ind.
Proof.
  intros Hp He. eapply Forall2_impl; [exact Hp|].
  intros furniture l [Hl Hpl]. simpl.
  destruct (extends_lookup w w' l He Hl) as [Hl' Heq].
  split; [exact Hl'|]. now rewrite Heq.
Qed.

Lemma initialize_individual_spec (w : world G) :
  returns (for_each (initialize_item self) (furniture_list self)) w
    (fun ind w' => individual_placed w' ind /\ extends w w' /\ True).
Proof.
  apply (returns_for_each (initialize_item self) (furniture_list self)
           (fun _ => True) extends
           (fun furniture l w' =>
              (l < List.length (heap w'))%nat
              /\ placed self furniture (heap w' !!! l))).
  - apply extends_refl.
  - apply extends_trans.
  - intros furniture l w1 w2 [Hl Hp] He.
    destruct (extends_lookup w1 w2 l He Hl) as [Hl' Heq].
    split; [exact Hl'|]. now rewrite Heq.
  - intros furniture w1 _ _. apply initialize_item_spec.
  - exact I.
Qed.

(** [initialize_population] returns for every configuration. *)
Lemma initialize_population_spec (w : world G) :
  returns (initialize_population self) w
    (fun population w' =>
       List.length population = population_size self
       /\ Forall (individual_placed w') population
       /\ extends w w').
Proof.
  unfold initialize_population.
  eapply returns_weaken.
  - apply (returns_repeat_times _ (population_size self)
             (fun _ => True) extends (fun ind w' => individual_placed w' ind)).
    + apply extends_refl.
    + apply extends_trans.
    + intros ind w1 w2. apply individual_placed_extends.
    + intros w1 _. apply initialize_individual_spec.
    + exact I.
  - intros population w' (Hlen & HF & He & _). auto.
Qed.

End Initialization.

(** ** The insertion sort is a sort that [np.argsort] may be *)

Lemma insert_index_Permutation scores i sorted :
  Permutation (insert_index scores i sorted) (i :: sorted).
Proof.
  induction sorted as [|j rest IH]; simpl; [reflexivity|].
  destruct (Qlt_bool _ _); [reflexivity|].
  rewrite IH. apply perm_swap.
Qed.

Lemma insert_index_sorted scores i sorted :
  StronglySorted (sorts_before scores) sorted ->
  Forall (fun j => (j < i)%nat) sorted ->
  StronglySorted (sorts_before scores) (insert_index scores i sorted).
Proof.
  unfold sorts_before.
  induction sorted as [|j rest IH]; intros Hs Hlt; simpl.
  - repeat constructor.
  - apply StronglySorted_cons in Hs as [Hj Hrest].
    inversion Hlt as [|? ? Hji Hlt']; subst.
    destruct (Qlt_bool (scores !!! i) (scores !!! j)) eqn:E.
    + apply Qlt_bool_iff in E.
      constructor; [constructor; [exact Hrest|exact Hj]|].
      constructor; [left; exact E|].
      eapply Forall_impl; [exact Hj|]. intros k Hk. simpl in Hk. left.
      destruct Hk as [Hk|[Hk _]]; lra.
    + apply Qlt_bool_false in E.
      constructor; [apply IH; assumption|].
      rewrite (insert_index_Permutation scores i rest).
      constructor; [|exact Hj].
      destruct (Qlt_le_dec (scores !!! j) (scores !!! i)) as [Hlt2|Hle2].
      * left. exact Hlt2.
      * right. split; [lra|exact Hji].
Qed.

Lemma insertion_argsort_fold_spec scores (m a : nat) (sorted : list nat) :
  StronglySorted (sorts_before scores) sorted ->
  Forall (fun j => (j < a)%nat) sorted ->
  let result := fold_left (fun sorted i => insert_index scores i sorted)
                  (seq a m) sorted in
  StronglySorted (sorts_before scores) result
  /\ Permutation result (sorted ++ seq a m).
Proof.
  revert a sorted. induction m as [|m IH]; intros a sorted Hs Hlt; simpl.
  - split; [exact Hs|]. now rewrite app_nil_r.
  - destruct (IH (S a) (insert_index scores a sorted)) as [Hs' Hp'].
    + now apply insert_index_sorted.
    + rewrite (insert_index_Permutation scores a sorted).
      constructor; [lia|]. eapply Forall_impl; [exact Hlt|].
      intros j Hj. simpl in Hj. lia.
    + split; [exact Hs'|]. rewrite Hp'.
      rewrite (insert_index_Permutation scores a sorted).
      simpl. apply Permutation_middle.
Qed.

Lemma insertion_argsort_spec scores :
  StronglySorted (sorts_before scores) (insertion_argsort scores)
  /\ Permutation (insertion_argsort scores) (seq 0 (List.length scores)).
Proof.
  apply (insertion_argsort_fold_spec scores (List.length scores) 0 []); constructor.
Qed.

Lemma StronglySorted_rev {A} (R : A -> A -> Prop) (l : list A) :
  StronglySorted R l -> StronglySorted (fun a b => R b a) (rev l).
Proof.
  induction 1 as [|a l Hs IH Ha]; simpl; [constructor|].
  apply StronglySorted_app_2; [|exact IH|repeat constructor].
  intros x1 x2 Hx1 Hx2. apply list_elem_of_In in Hx1. apply in_rev in Hx1.
  apply list_elem_of_singleton in Hx2. subst x2.
  rewrite Forall_forall in Ha. apply Ha. now apply list_elem_of_In.
Qed.

Lemma StronglySorted_weaken {A} (R R' : A -> A -> Prop) (l : list A) :
  (forall a b, R a b -> R' a b) -> StronglySorted R l -> StronglySorted R' l.
Proof.
  intros HR. induction 1 as [|a l Hs IH Ha]; constructor; [exact IH|].
  eapply Forall_impl; [exact Ha|]. intros b Hb. apply HR. exact Hb.
Qed.

Lemma insertion_argsort_ascending scores :
  StronglySorted (fun i j => scores !!! i <= scores !!! j) (insertion_argsort scores).
Proof.
  eapply StronglySorted_weaken; [|apply insertion_argsort_spec].
  intros i j [Hlt|[Heq _]]; simpl in *; lra.
Qed.

#[export] Instance insertion_sorter : ArgSort :=
  Build_ArgSort insertion_argsort
    (fun scores => proj2 (insertion_argsort_spec scores))
    insertion_argsort_ascending.

(** Another sort that [np.argsort] may be: equal scores come with the
    later position first, so that [sorted_indices] is the stable descending
    order, ties in the order of the population. *)
Lemma insert_descending_Permutation scores i sorted :
  Permutation (insert_descending scores i sorted) (i :: sorted).
Proof.
  induction sorted as [|j rest IH]; simpl; [reflexivity|].
  destruct (Qlt_bool _ _); [reflexivity|].
  rewrite IH. apply perm_swap.
Qed.

Lemma insert_descending_sorted scores i sorted :
  StronglySorted (fun a b => scores !!! b <= scores !!! a) sorted ->
  StronglySorted (fun a b => scores !!! b <= scores !!! a)
    (insert_descending scores i sorted).
Proof.
  induction sorted as [|j rest IH]; intros Hs; simpl.
  - repeat constructor.
  - apply StronglySorted_cons in Hs as [Hj Hrest].
    destruct (Qlt_bool (scores !!! j) (scores !!! i)) eqn:E.
    + apply Qlt_bool_iff in E.
      constructor; [constructor; [exact Hrest|exact Hj]|].
      constructor; [lra|].
      eapply Forall_impl; [exact Hj|]. intros k Hk. simpl in Hk. lra.
    + apply Qlt_bool_false in E.
      constructor; [apply IH; assumption|].
      rewrite (insert_descending_Permutation scores i rest).
      constructor; [exact E|exact Hj].
Qed.

Lemma stable_descending_fold_spec scores (l sorted : list nat) :
  StronglySorted (fun a b => scores !!! b <= scores !!! a) sorted ->
  let result := fold_left (fun sorted i => insert_descending scores i sorted)
                  l sorted in
  StronglySorted (fun a b => scores !!! b <= scores !!! a) result
  /\ Permutation result (sorted ++ l).
Proof.
  revert sorted. induction l as [|a l IH]; intros sorted Hs; simpl.
  - split; [exact Hs|]. now rewrite app_nil_r.
  - destruct (IH (insert_descending scores a sorted)) as [Hs' Hp'].
    + now apply insert_descending_sorted.
    + split; [exact Hs'|]. rewrite Hp'.
      rewrite (insert_descending_Permutation scores a sorted).
      simpl. apply Permutation_middle.
Qed.

Lemma rev_stable_descending_Permutation scores :
  Permutation (rev (stable_descending_indices scores))
    (seq 0 (List.length scores)).
Proof.
  rewrite <- Permutation_rev.
  apply (stable_descending_fold_spec scores (seq 0 (List.length scores)) []).
  constructor.
Qed.

Lemma rev_stable_descending_ascending scores :
  StronglySorted (fun i j => scores !!! i <= scores !!! j)
    (rev (stable_descending_indices scores)).
Proof.
  apply (StronglySorted_rev (fun a b => scores !!! b <= scores !!! a)).
  apply (stable_descending_fold_spec scores (seq 0 (List.length scores)) []).
  constructor.
Qed.

Definition earlier_first_sorter : ArgSort :=
  Build_ArgSort (fun scores => rev (stable_descending_indices scores))
    rev_stable_descending_Permutation rev_stable_descending_ascending.

(** ** The linear congruential generator is a source of randomness *)

Lemma lcg_float_range g : 0 <= (lcg_float g).1 /\ (lcg_float g).1 < 1.
Proof.
  assert (Hb : (lcg g < 2147483648)%N) by (apply N.mod_upper_bound; discriminate).
  unfold lcg_float. cbn [fst]. unfold Qle, Qlt. cbn [Qnum Qden]. lia.
Qed.

Lemma lcg_sample_length n k g :
  (k <= n)%nat -> List.length (lcg_sample n k g).1 = k.
Proof. intros _. apply length_seq. Qed.

Lemma lcg_sample_NoDup n k g : (k <= n)%nat -> NoDup (lcg_sample n k g).1.
Proof. intros _. apply NoDup_seq. Qed.

Lemma lcg_sample_bound n k g :
  (k <= n)%nat -> Forall (fun i => (i < n)%nat) (lcg_sample n k g).1.
Proof.
  intros Hk. apply Forall_forall. intros i Hi. simpl in Hi.
  apply elem_of_seq in Hi.
  pose proof (N.mod_upper_bound g (N.of_nat (n - k + 1))). lia.
Qed.

#[export] Instance lcg_source : RandomSource N :=
  Build_RandomSource N lcg_float lcg_float_range
    lcg_sample lcg_sample_length lcg_sample_NoDup lcg_sample_bound.

(** The world before anything runs: no object, seed 42, no history. *)
Definition world0 : world N := mkWorld [] 42%N [].

(** ** Parent selection *)

Section Selection.

Context {G : Type} `{RandomSource G} {sorter : ArgSort}.

Lemma random_sample_raises n k (w : world G) :
  (n < k)%nat -> random_sample n k w = (Raise ValueError, w).
Proof.
  intros Hlt. unfold random_sample.
  destruct (k <=? n)%nat eqn:E; [|reflexivity].
  apply Nat.leb_le in E. lia.
Qed.

Lemma random_sample_returns n k (w : world G) :
  (k <= n)%nat ->
  returns (random_sample n k) w
    (fun l w' =>
       (List.length l = k /\ NoDup l /\ Forall (fun i => (i < n)%nat) l)
       /\ heap w' = heap w
       /\ best_fitness_history w' = best_fitness_history w).
Proof.
  intros Hk. unfold returns, random_sample.
  assert (E : (k <=? n)%nat = true) by (now apply Nat.leb_le).
  rewrite E.
  pose proof (next_sample_length n k (rng w) Hk).
  pose proof (next_sample_NoDup n k (rng w) Hk).
  pose proof (next_sample_bound n k (rng w) Hk).
  destruct (next_sample n k (rng w)) as [l g]; simpl in *.
  eexists _, _. split; [reflexivity|]. simpl. auto.
Qed.

Lemma for_each_index {A} `{!Inhabited A} (l : list A) (indices : list nat)
    (w : world G) :
  Forall (fun i => (i < List.length l)%nat) indices ->
  for_each (fun i => lift_result (index l i)) indices w
  = (Ok (map (fun i => l !!! i) indices), w).
Proof.
  induction 1 as [|i indices Hi _ IH]; simpl; [reflexivity|].
  rewrite (bind_ok _ _ w (l !!! i) w).
  - rewrite (bind_ok _ _ w _ w IH). reflexivity.
  - unfold lift_result, index.
    apply list_lookup_lookup_total_lt in Hi. now rewrite Hi.
Qed.

Lemma tournament_raises population fitness_scores (w : world G) :
  (List.length population < 3)%nat ->
  tournament population fitness_scores w = (Raise ValueError, w).
Proof.
  intros Hlt. unfold tournament.
  apply bind_raise. now apply random_sample_raises.
Qed.

Lemma tournament_returns population fitness_scores (w : world G) :
  (3 <= List.length population)%nat ->
  (List.length population <= List.length fitness_scores)%nat ->
  returns (tournament population fitness_scores) w
    (fun winner w' =>
       tournament_winner population fitness_scores winner
       /\ heap w' = heap w
       /\ best_fitness_history w' = best_fitness_history w).
Proof.
  intros Hn Hfs. unfold tournament. apply returns_bind.
  eapply returns_weaken; [apply random_sample_returns; exact Hn|].
  intros indices w' ((Hlen & Hnd & Hb) & Hh & Hhist).
  assert (Hb' : Forall (fun i => (i < List.length fitness_scores)%nat) indices).
  { eapply Forall_impl; [exact Hb|]. intros i Hi. simpl in Hi. lia. }
  apply returns_bind. unfold returns at 1.
  eexists _, _. split; [apply for_each_index; exact Hb'|].
  destruct (argmax_nonempty (map (fun i => fitness_scores !!! i) indices))
    as [pos Hpos].
  { destruct indices; [discriminate|]. discriminate. }
  destruct (argmax_spec _ _ Hpos) as (m & Hm & Hmax).
  apply returns_bind. eapply returns_lift_result; [exact Hpos|].
  rewrite list_lookup_fmap in Hm.
  destruct (indices !! pos) as [winner_idx|] eqn:Ew; [|discriminate].
  simpl in Hm. injection Hm as <-.
  apply returns_bind.
  eapply returns_lift_result; [apply index_Ok; exact Ew|].
  assert (Hin : In winner_idx indices).
  { apply list_elem_of_In. eapply list_elem_of_lookup_2. exact Ew. }
  assert (Hlt : (winner_idx < List.length population)%nat).
  { rewrite Forall_forall in Hb. apply Hb. now apply list_elem_of_In. }
  destruct (lookup_lt_is_Some_2 population winner_idx Hlt) as [winner Hw].
  eapply returns_lift_result; [apply index_Ok; exact Hw|].
  split; [|auto].
  exists indices, winner_idx. repeat split; auto.
  rewrite Forall_map in Hmax. exact Hmax.
Qed.


End Selection.


(** ** The order of [sorted_indices] *)

Section SortedIndices.

Context {sorter : ArgSort}.

(** [sorted_indices] holds every position once, scores descending. *)
Lemma sorted_indices_spec scores :
  StronglySorted (fun i j => scores !!! j <= scores !!! i) (sorted_indices scores)
  /\ Permutation (sorted_indices scores) (seq 0 (List.length scores)).
Proof.
  unfold sorted_indices. split.
  - apply (StronglySorted_rev (fun i j => scores !!! i <= scores !!! j)).
    apply argsort_ascending.
  - transitivity (argsort scores); [|apply argsort_Permutation].
    symmetry. apply Permutation_rev.
Qed.

Lemma sorted_indices_length scores :
  List.length (sorted_indices scores) = List.length scores.
Proof.
  destruct (sorted_indices_spec scores) as [_ Hp].
  rewrite (Permutation_length Hp). apply length_seq.
Qed.

Lemma sorted_indices_bound scores i idx :
  sorted_indices scores !! i = Some idx -> (idx < List.length scores)%nat.
Proof.
  intros Hi. destruct (sorted_indices_spec scores) as [_ Hp].
  apply list_elem_of_lookup_2 in Hi. rewrite Hp in Hi.
  apply elem_of_seq in Hi. lia.
Qed.

Lemma sorted_indices_NoDup scores k : NoDup (take k (sorted_indices scores)).
Proof.
  destruct (sorted_indices_spec scores) as [_ Hp].
  assert (Hn : NoDup (sorted_indices scores)) by (rewrite Hp; apply NoDup_seq).
  rewrite <- (take_drop k (sorted_indices scores)) in Hn.
  apply NoDup_app in Hn. tauto.
Qed.

(** No position outside the first [k] of [sorted_indices] has a higher
    score than one of them. *)
Lemma sorted_indices_top scores k i j :
  In i (take k (sorted_indices scores)) ->
  (j < List.length scores)%nat ->
  ~ In j (take k (sorted_indices scores)) ->
  scores !!! j <= scores !!! i.
Proof.
  intros Hi Hj Hnj. destruct (sorted_indices_spec scores) as [Hs Hp].
  rewrite <- (take_drop k (sorted_indices scores)) in Hs, Hp.
  eapply (StronglySorted_app_1_elem_of (fun i j => scores !!! j <= scores !!! i));
    [exact Hs|now apply list_elem_of_In|].
  assert (Hin : j ∈ seq 0 (List.length scores)) by (apply elem_of_seq; lia).
  rewrite <- Hp in Hin. apply elem_of_app in Hin as [Hin|Hin]; [|exact Hin].
  exfalso. apply Hnj. now apply list_elem_of_In.
Qed.

End SortedIndices.

(** ** Deep copies *)

Section DeepCopy.

Context {G : Type} `{RandomSource G} {sorter : ArgSort}.

(** Every entry of the memo pairs an object of before the copy with its
    copy. *)
Definition memo_ok (base : nat) (w : world G) (memo : list (nat * nat)) : Prop :=
  Forall (fun p => (p.1 < base)%nat
                   /\ (base <= p.2 < List.length (heap w))%nat
                   /\ heap w !!! p.2 = heap w !!! p.1) memo.

Lemma memo_ok_extends base (w w' : world G) memo :
  (base <= List.length (heap w))%nat ->
  extends w w' -> memo_ok base w memo -> memo_ok base w' memo.
Proof.
  intros Hb He Hm. unfold memo_ok in *. eapply Forall_impl; [exact Hm|].
  intros [l l'] (Hl & Hl' & Heq). simpl in *.
  destruct (extends_lookup w w' l' He) as [Hlt Heq']; [lia|].
  destruct (extends_lookup w w' l He) as [_ Heq'']; [lia|].
  repeat split; try lia. congruence.
Qed.

Lemma deepcopy_memo_spec (ind : list nat) :
  forall (memo : list (nat * nat)) (base : nat) (w : world G),
    (base <= List.length (heap w))%nat ->
    Forall (fun l => (l < base)%nat) ind ->
    memo_ok base w memo ->
    returns (deepcopy_memo memo ind) w
      (fun copy w' =>
         extends w w'
         /\ map (fun l => heap w' !!! l) copy = map (fun l => heap w !!! l) ind
         /\ Forall (fun l => (base <= l < List.length (heap w'))%nat) copy).
Proof.
  induction ind as [|l ind IH]; intros memo base w Hb Hind Hmemo; simpl.
  - apply returns_ret. split; [apply extends_refl|]. split; constructor.
  - inversion Hind as [|? ? Hl Hind']; subst.
    destruct (list_find (fun p => p.1 = l) memo) as [[i [l0 l']]|] eqn:Ef.
    + apply list_find_Some in Ef as (Hi & Hl0 & _). simpl in Hl0. subst l0.
      assert (Hm : (base <= l' < List.length (heap w))%nat
                   /\ heap w !!! l' = heap w !!! l).
      { unfold memo_ok in Hmemo. rewrite Forall_forall in Hmemo.
        apply list_elem_of_lookup_2 in Hi.
        destruct (Hmemo _ Hi) as (_ & ? & ?). auto. }
      destruct Hm as [Hl' Heq].
      apply returns_bind.
      eapply returns_weaken; [apply (IH memo base w); assumption|].
      intros copy w' (He & Hv & Hf). apply returns_ret.
      split; [exact He|].
      destruct (extends_lookup w w' l' He) as [Hlt Heq']; [lia|].
      split; [simpl; congruence|].
      constructor; [lia|exact Hf].
    + set (w1 := mkWorld (heap w ++ [heap w !!! l]) (rng w) (best_fitness_history w)).
      apply returns_bind.
      exists (List.length (heap w)), w1. split; [reflexivity|].
      assert (He1 : extends w w1).
      { split; [eexists; reflexivity|reflexivity]. }
      assert (Hlen1 : List.length (heap w1) = S (List.length (heap w))).
      { simpl. rewrite length_app. simpl. lia. }
      apply returns_bind.
      eapply returns_weaken.
      * apply (IH ((l, List.length (heap w)) :: memo) base w1); [lia|exact Hind'|].
        constructor; [|eapply memo_ok_extends; eauto].
        simpl. split; [exact Hl|]. split; [rewrite length_app; simpl; lia|].
        rewrite list_lookup_total_middle by reflexivity.
        rewrite lookup_total_app_l by lia. reflexivity.
      * intros copy w' (He & Hv & Hf). apply returns_ret.
        split; [eapply extends_trans; eauto|].
        destruct (extends_lookup w1 w' (List.length (heap w)) He) as [Hlt Heq];
          [lia|].
        split.
        -- simpl. rewrite Heq. simpl.
           rewrite list_lookup_total_middle by reflexivity. f_equal.
           rewrite Hv. apply map_ext_in. intros a Ha.
           rewrite Forall_forall in Hind'.
           apply lookup_total_app_l.
           specialize (Hind' a (proj2 (list_elem_of_In _ _) Ha)). lia.
        -- constructor; [lia|exact Hf].
Qed.

(** [copy.deepcopy] of an individual whose references are valid. *)
Lemma deepcopy_spec (ind : list nat) (w : world G) :
  Forall (fun l => (l < List.length (heap w))%nat) ind ->
  returns (deepcopy ind) w
    (fun copy w' => extends w w' /\ deep_copy_of w w' ind copy).
Proof.
  intros Hind. unfold deepcopy, deep_copy_of.
  apply (deepcopy_memo_spec ind [] (List.length (heap w)) w);
    [lia|exact Hind|constructor].
Qed.

Lemma deep_copy_of_extends (w0 w w' : world G) ind copy :
  (List.length (heap w0) <= List.length (heap w))%nat ->
  deep_copy_of w0 w ind copy -> extends w w' -> deep_copy_of w0 w' ind copy.
Proof.
  intros Hb [Hv Hf] He. split.
  - rewrite <- Hv. apply map_ext_in. intros l Hl.
    rewrite Forall_forall in Hf.
    specialize (Hf l (proj2 (list_elem_of_In _ _) Hl)).
    destruct (extends_lookup w w' l He) as [_ Heq]; [lia|exact Heq].
  - eapply Forall_impl; [exact Hf|]. intros l Hl. simpl in Hl.
    destruct (extends_lookup w w' l He) as [Hlt _]; lia.
Qed.

End DeepCopy.

(** ** Elitism *)

Lemma Forall2_seq_take {A B} (L : list A) (k : nat) (P : A -> B -> Prop)
    (cs : list B) :
  (k <= List.length L)%nat ->
  Forall2 (fun i c => exists a, L !! i = Some a /\ P a c) (seq 0 k) cs ->
  Forall2 P (take k L) cs.
Proof.
  intros Hk HF. apply Forall2_same_length_lookup. split.
  - apply Forall2_length in HF. rewrite length_seq in HF.
    rewrite length_take. lia.
  - intros i x y Hx Hy.
    apply lookup_take_Some in Hx as [Hx Hi].
    rewrite Forall2_lookup in HF. specialize (HF i).
    rewrite Hy, (lookup_seq_lt 0 k i Hi) in HF. simpl in HF.
    inversion HF as [? ? (a & Ha & HP)|]; subst. congruence.
Qed.

Section Elitism.

Context {G : Type} `{RandomSource G} {sorter : ArgSort}.

Variable self : GeneticLayoutOptimizer.

Lemma elitism_spec (population : list (list nat)) (fitness_scores : list Q)
    (w : world G) :
  (elitism_count self <= List.length population)%nat ->
  List.length fitness_scores = List.length population ->
  Forall (Forall (fun l => (l < List.length (heap w))%nat)) population ->
  returns (elitism self population fitness_scores) w
    (fun elites w' =>
       extends w w'
       /\ Forall2 (fun idx copy => deep_copy_of w w' (population !!! idx) copy)
            (take (elitism_count self) (sorted_indices fitness_scores)) elites).
Proof.
  intros Hk Hlen Hvalid. unfold elitism.
  eapply returns_weaken.
  - apply (returns_for_each _ (seq 0 (elitism_count self))
             (fun w1 => extends w w1) extends
             (fun i copy w1 =>
                extends w w1
                /\ exists idx, sorted_indices fitness_scores !! i = Some idx
                     /\ deep_copy_of w w1 (population !!! idx) copy)).
    + apply extends_refl.
    + apply extends_trans.
    + intros i copy w1 w2 (He1 & idx & Hi & Hc) He2.
      split; [eapply extends_trans; eauto|].
      exists idx. split; [exact Hi|].
      eapply deep_copy_of_extends; [|exact Hc|exact He2].
      destruct He1 as [[ext ->] _]. rewrite length_app. lia.
    + intros i w1 Hi He1. apply in_seq in Hi.
      assert (Hlt : (i < List.length (sorted_indices fitness_scores))%nat)
        by (rewrite sorted_indices_length; lia).
      destruct (lookup_lt_is_Some_2 _ _ Hlt) as [idx Hidx].
      pose proof (sorted_indices_bound _ _ _ Hidx) as Hb.
      rewrite Hlen in Hb.
      pose proof (list_lookup_lookup_total_lt population idx Hb) as Hind.
      apply returns_bind.
      eapply returns_lift_result; [apply index_Ok; exact Hidx|].
      apply returns_bind.
      eapply returns_lift_result; [apply index_Ok; exact Hind|].
      assert (Hv : Forall (fun l => (l < List.length (heap w))%nat)
                     (population !!! idx)).
      { rewrite Forall_forall in Hvalid. apply Hvalid.
        eapply list_elem_of_lookup_2. exact Hind. }
      assert (Hge : (List.length (heap w) <= List.length (heap w1))%nat).
      { destruct He1 as [[ext ->] _]. rewrite length_app. lia. }
      eapply returns_weaken.
      * apply deepcopy_spec. eapply Forall_impl; [exact Hv|].
        intros l Hl. simpl in Hl. lia.
      * intros copy w2 (He2 & Hv2 & Hf2).
        assert (He : extends w w2) by (eapply extends_trans; eauto).
        split; [|split; [exact He2|exact He]].
        split; [exact He|]. exists idx. split; [exact Hidx|]. split.
        -- rewrite Hv2. apply map_ext_in. intros l Hl.
           rewrite Forall_forall in Hv.
           specialize (Hv l (proj2 (list_elem_of_In _ _) Hl)).
           destruct (extends_lookup w w1 l He1 Hv) as [_ Heq]. exact Heq.
        -- eapply Forall_impl; [exact Hf2|]. intros l Hl. simpl in Hl. lia.
    + apply extends_refl.
  - intros elites w' (HF & _ & He). split; [exact He|].
    apply Forall2_seq_take; [rewrite sorted_indices_length; lia|].
    eapply Forall2_impl; [exact HF|].
    intros i copy (_ & idx & Hi & Hc). exists idx. auto.
Qed.

(** C6 (as the code has it): the elite is made of the first
    [elitism_count] positions of [sorted_indices], which holds every
    position of the population once, scores descending.  The members of
    the elite are thus distinct individuals, and no individual left out has
    a higher score than one of them; which of several individuals with
    equal scores is taken is left to [np.argsort] and holds for every sort
    it may be.  Each member enters the new population as a deep copy: the
    same attribute values in new objects, the objects of the old population
    unchanged. *)
Theorem elitism_copies_top_individuals (population : list individual)
    (fitness_scores : list Q) (w : world G) :
  let chosen := take (elitism_count self) (sorted_indices fitness_scores) in
  StronglySorted (fun i j => fitness_scores !!! j <= fitness_scores !!! i)
    (sorted_indices fitness_scores)
  /\ Permutation (sorted_indices fitness_scores)
       (seq 0 (List.length fitness_scores))
  /\ NoDup chosen
  /\ (forall i j, In i chosen -> (j < List.length fitness_scores)%nat ->
        ~ In j chosen -> fitness_scores !!! j <= fitness_scores !!! i)
  /\ ((elitism_count self <= List.length population)%nat ->
      List.length fitness_scores = List.length population ->
      Forall (Forall (fun l => (l < List.length (heap w))%nat)) population ->
      returns (elitism self population fitness_scores) w
        (fun elites w' =>
           extends w w'
           /\ Forall2 (fun idx copy =>
                deep_copy_of w w' (population !!! idx) copy) chosen elites)).
Proof.
  cbn zeta. split; [apply sorted_indices_spec|].
  split; [apply sorted_indices_spec|].
  split; [apply sorted_indices_NoDup|].
  split; [apply sorted_indices_top|apply elitism_spec].
Qed.

End Elitism.

(** Three individuals of one item each; the first two have the same score. *)
Definition tie_config : GeneticLayoutOptimizer :=
  optimizer_init 5 4 [Furniture.init "Bed" 1 2] None 3 1 (1 # 5) 1.

Definition tie_world : world N :=
  mkWorld [Furniture.mk "Bed" 1 2 true 0 0 0;
           Furniture.mk "Bed" 1 2 true 3 0 0;
           Furniture.mk "Bed" 1 2 true 1 1 0] 42%N [].

Definition tie_population : list individual := [[0%nat]; [1%nat]; [2%nat]].

Definition tie_scores : list Q := [5; 5; 3].

Lemma elitism_copies_top_individuals_witness :
  returns (elitism tie_config tie_population tie_scores) tie_world
    (fun elites w' =>
       extends tie_world w'
       /\ Forall2 (fun idx copy =>
            deep_copy_of tie_world w' (tie_population !!! idx) copy)
            (take (elitism_count tie_config) (sorted_indices tie_scores)) elites).
Proof.
  apply (elitism_copies_top_individuals tie_config tie_population tie_scores tie_world).
  - simpl. lia.
  - reflexivity.
  - repeat constructor.
Defined.

(** C6 (against the claim as stated): [np.argsort] may return equal
    scores in the order of their positions, as the insertion sort does (and
    as a stable kind would).  Reversed, that order puts the later slot
    first: of two individuals with the same score the code then keeps the
    later one, where a stable descending order with ties in population
    order keeps the earlier one; the copy that enters the new population
    has the values of the object of slot 1. *)
Lemma elitism_tie_keeps_later_slot :
  argsort (ArgSort := insertion_sorter) tie_scores = [2%nat; 0%nat; 1%nat]
  /\ take 1 (sorted_indices (sorter := insertion_sorter) tie_scores) = [1%nat]
  /\ take 1 (stable_descending_indices tie_scores) = [0%nat]
  /\ take 1 (sorted_indices (sorter := insertion_sorter) tie_scores)
     <> take 1 (stable_descending_indices tie_scores)
  /\ exists w',
       elitism (sorter := insertion_sorter) tie_config tie_population tie_scores
         tie_world = (Ok [[3%nat]], w')
       /\ heap w' !!! 3%nat = heap tie_world !!! 1%nat
       /\ heap w' !!! 3%nat <> heap tie_world !!! 0%nat.
Proof.
  split; [reflexivity|].
  split; [reflexivity|]. split; [reflexivity|]. split; [discriminate|].
  eexists. split; [vm_compute; reflexivity|].
  split; [reflexivity|]. vm_compute. discriminate.
Qed.

(** The order of ties is open: with the other sort, [sorted_indices] is
    the stable descending order and the elite of the same population is the
    earlier slot. *)
Lemma elitism_tie_order_is_open :
  (forall scores,
     sorted_indices (sorter := earlier_first_sorter) scores
     = stable_descending_indices scores)
  /\ take 1 (sorted_indices (sorter := insertion_sorter) tie_scores) = [1%nat]
  /\ take 1 (sorted_indices (sorter := earlier_first_sorter) tie_scores) = [0%nat]
  /\ exists w',
       elitism (sorter := earlier_first_sorter) tie_config tie_population
         tie_scores tie_world = (Ok [[3%nat]], w')
       /\ heap w' !!! 3%nat = heap tie_world !!! 0%nat.
Proof.
  split; [intros scores; apply rev_involutive|].
  split; [reflexivity|]. split; [reflexivity|].
  eexists. split; [vm_compute; reflexivity|]. reflexivity.
Qed.

(** ** Computations that always return *)

Section Totality.

Context {G : Type} `{RandomSource G} {sorter : ArgSort}.

(** [m] returns from every world, with a value that satisfies [P]. *)
Definition total {A} (m : M G A) (P : A -> Prop) : Prop :=
  forall w, returns m w (fun a _ => P a).

Lemma total_ret {A} (a : A) (P : A -> Prop) : P a -> total (ret a) P.
Proof. intros HP w. now apply returns_ret. Qed.

Lemma total_bind {A B} (m : M G A) (k : A -> M G B) (P : A -> Prop) (Q : B -> Prop) :
  total m P -> (forall a, P a -> total (k a) Q) -> total (bind m k) Q.
Proof.
  intros Hm Hk w. apply returns_bind.
  eapply returns_weaken; [apply Hm|]. intros a w' HP. now apply Hk.
Qed.

Lemma total_weaken {A} (m : M G A) (P Q : A -> Prop) :
  total m P -> (forall a, P a -> Q a) -> total m Q.
Proof.
  intros Hm HPQ w. eapply returns_weaken; [apply Hm|]. intros a w'. apply HPQ.
Qed.

Lemma total_lift_result {A} (r : result A) (a : A) (P : A -> Prop) :
  r = Ok a -> P a -> total (lift_result r) P.
Proof. intros Hr HP w. eapply returns_lift_result; eauto. Qed.

Lemma total_for_each {A B} (f : A -> M G B) (l : list A) (P : A -> B -> Prop) :
  (forall a, In a l -> total (f a) (P a)) ->
  total (for_each f l) (Forall2 P l).
Proof.
  intros Hf w. eapply returns_weaken.
  - apply (returns_for_each f l (fun _ => True) (fun _ _ => True)
             (fun a b _ => P a b)); auto.
    intros a w1 Ha _. eapply returns_weaken; [apply Hf; exact Ha|].
    intros b w2 HP. auto.
  - intros bs w' (HF & _). exact HF.
Qed.

Lemma total_repeat_times {A} (m : M G A) (n : nat) (P : A -> Prop) :
  total m P ->
  total (repeat_times n m) (fun l => List.length l = n /\ Forall P l).
Proof.
  intros Hm w. eapply returns_weaken.
  - apply (returns_repeat_times m n (fun _ => True) (fun _ _ => True)
             (fun a _ => P a)); auto.
    intros w1 _. eapply returns_weaken; [apply Hm|]. intros a w2 HP. auto.
  - intros l w' (Hlen & HF & _). auto.
Qed.

Lemma total_random_random : total random_random (fun _ => True).
Proof.
  intros w. unfold returns, random_random.
  destruct (next_float (rng w)) as [r g]. eexists _, _. split; [reflexivity|exact I].
Qed.

Lemma total_random_uniform a b : total (random_uniform a b) (fun _ => True).
Proof.
  unfold random_uniform. eapply total_bind; [apply total_random_random|].
  intros r _. now apply total_ret.
Qed.

Lemma total_load l : total (load l) (fun _ => True).
Proof. intros w. eexists _, _. split; [reflexivity|exact I]. Qed.

Lemma total_store l f : total (store l f) (fun _ => True).
Proof. intros w. eexists _, _. split; [reflexivity|exact I]. Qed.

Lemma total_alloc f : total (alloc f) (fun _ => True).
Proof. intros w. eexists _, _. split; [reflexivity|exact I]. Qed.

Lemma total_call_rotate l : total (call_rotate l) (fun _ => True).
Proof.
  unfold call_rotate. eapply total_bind; [apply total_load|].
  intros f _. apply total_store.
Qed.

Lemma total_call_set_position l x y : total (call_set_position l x y) (fun _ => True).
Proof.
  unfold call_set_position. eapply total_bind; [apply total_load|].
  intros f _. apply total_store.
Qed.

Lemma total_deepcopy_furniture l : total (deepcopy_furniture l) (fun _ => True).
Proof.
  unfold deepcopy_furniture. eapply total_bind; [apply total_load|].
  intros f _. apply total_alloc.
Qed.

Lemma total_deepcopy_memo ind :
  forall memo, total (deepcopy_memo memo ind)
                 (fun copy => List.length copy = List.length ind).
Proof.
  induction ind as [|l ind IH]; intros memo; simpl.
  - now apply total_ret.
  - destruct (list_find _ memo) as [[? [? l']]|].
    + eapply total_bind; [apply IH|]. intros rest Hr. apply total_ret.
      simpl. now rewrite Hr.
    + eapply total_bind; [apply total_deepcopy_furniture|]. intros l' _.
      eapply total_bind; [apply IH|]. intros rest Hr. apply total_ret.
      simpl. now rewrite Hr.
Qed.

Lemma total_deepcopy ind :
  total (deepcopy ind) (fun copy => List.length copy = List.length ind).
Proof. apply total_deepcopy_memo. Qed.

Variable self : GeneticLayoutOptimizer.

Lemma total_crossover parent1 parent2 :
  List.length parent2 = List.length parent1 ->
  total (crossover parent1 parent2)
    (fun child => List.length child = List.length parent1).
Proof.
  intros Hlen. unfold crossover. eapply total_weaken.
  - apply (total_for_each _ _ (fun _ _ => True)).
    intros i Hi. apply in_seq in Hi.
    eapply total_bind; [apply total_random_random|]. intros r _.
    destruct (lookup_lt_is_Some_2 parent1 i) as [l1 Hl1]; [lia|].
    destruct (lookup_lt_is_Some_2 parent2 i) as [l2 Hl2]; [lia|].
    destruct (Qlt_bool r (1 # 2)).
    + eapply total_bind; [eapply total_lift_result; [apply index_Ok; exact Hl1|exact I]|].
      intros l _. apply total_deepcopy_furniture.
    + eapply total_bind; [eapply total_lift_result; [apply index_Ok; exact Hl2|exact I]|].
      intros l _. apply total_deepcopy_furniture.
  - intros child HF. apply Forall2_length in HF.
    rewrite length_seq in HF. now symmetry.
Qed.

Lemma total_mutate_item l : total (mutate_item self l) (fun _ => True).
Proof.
  unfold mutate_item.
  eapply total_bind; [apply total_random_random|]. intros r _.
  eapply (total_bind _ _ (fun _ => True)).
  - destruct (Qlt_bool r (mutation_rate self)); [|now apply total_ret].
    eapply total_bind; [apply total_load|]. intros f _.
    eapply total_bind; [apply total_random_uniform|]. intros x _.
    eapply total_bind; [apply total_random_uniform|]. intros y _.
    apply total_call_set_position.
  - intros _ _. eapply total_bind; [apply total_random_random|]. intros r' _.
    destruct (Qlt_bool r' (mutation_rate self));
      [apply total_call_rotate|now apply total_ret].
Qed.

Lemma total_mutate ind : total (mutate self ind) (fun ind' => ind' = ind).
Proof.
  unfold mutate. eapply total_bind.
  - apply (total_for_each _ _ (fun _ _ => True)).
    intros l _. apply total_mutate_item.
  - intros _ _. now apply total_ret.
Qed.

End Totality.

(** ** One generation returns *)

Lemma calculate_fitness_defined self individual :
  room_ok self -> exists f, calculate_fitness self individual = Ok f.
Proof.
  intros [Hr Hc].
  pose proof (calculate_fitness_result self individual) as Hres.
  destruct (calculate_fitness self individual) as [f|e]; [eauto|].
  destruct Hres as [_ [Hlt|Hlt]]; lia.
Qed.

Lemma calculate_fitness_Ok_room_ok self individual f :
  calculate_fitness self individual = Ok f -> room_ok self.
Proof.
  unfold calculate_fitness, raw_score, occupancy_grid, room_ok.
  destruct (_ || _) eqn:E; [discriminate|]. intros _.
  apply orb_false_iff in E as [E1 E2].
  apply Z.ltb_ge in E1, E2. auto.
Qed.

Section Generation.

Context {G : Type} `{RandomSource G} {sorter : ArgSort}.

Variable self : GeneticLayoutOptimizer.

(** The scores of a population are the fitness values of its individuals;
    evaluation changes nothing. *)
Lemma for_each_fitness_of (population : list (list nat)) (w : world G) :
  room_ok self ->
  exists fitness_scores,
    for_each (fitness_of self) population w = (Ok fitness_scores, w)
    /\ Forall2 (fun ind f => calculate_fitness self (deref (heap w) ind) = Ok f)
         population fitness_scores.
Proof.
  intros Hroom. induction population as [|ind population IH]; simpl.
  - exists []. split; [reflexivity|constructor].
  - destruct IH as (fs & Hfs & HF).
    destruct (calculate_fitness_defined self (deref (heap w) ind) Hroom) as [f Hf].
    exists (f :: fs). split; [|constructor; assumption].
    rewrite (bind_ok _ _ w f w); [|unfold fitness_of; now rewrite Hf].
    rewrite (bind_ok _ _ w fs w Hfs). reflexivity.
Qed.

Lemma for_each_fitness_of_inv (population : list (list nat)) (w w' : world G)
    fitness_scores :
  for_each (fitness_of self) population w = (Ok fitness_scores, w') ->
  w' = w
  /\ Forall2 (fun ind f => calculate_fitness self (deref (heap w) ind) = Ok f)
       population fitness_scores.
Proof.
  revert fitness_scores. induction population as [|ind population IH];
    intros fs; simpl.
  - intros [= <- <-]. split; [reflexivity|constructor].
  - unfold bind at 1. unfold fitness_of at 1.
    destruct (calculate_fitness self (deref (heap w) ind)) as [f|e] eqn:Ef;
      [|discriminate].
    unfold bind at 1.
    destruct (for_each (fitness_of self) population w) as [[fs'|e] w1] eqn:Er;
      [|discriminate].
    intros [= <- <-]. destruct (IH fs' eq_refl) as [-> HF].
    split; [reflexivity|]. constructor; assumption.
Qed.

(** Lines 181-186 return when there is a score for every individual. *)
Lemma track_best_returns (population : list (list nat)) (fitness_scores : list Q)
    best_individual best_fitness (w : world G) :
  population <> [] ->
  List.length fitness_scores = List.length population ->
  returns (track_best population fitness_scores best_individual best_fitness) w
    (fun best w' =>
       exists idx m,
         argmax fitness_scores = Ok idx
         /\ fitness_scores !! idx = Some m
         /\ Forall (fun v => v <= m) fitness_scores
         /\ best.2 = (if Qlt_bool best_fitness m then m else best_fitness)
         /\ (Qlt_bool best_fitness m = false -> best.1 = best_individual)
         /\ (Qlt_bool best_fitness m = true ->
             exists ind copy, population !! idx = Some ind
               /\ best.1 = Some copy
               /\ List.length copy = List.length ind)
         /\ best_fitness_history w' = best_fitness_history w ++ [best.2]).
Proof.
  intros Hne Hlen.
  destruct (argmax_nonempty fitness_scores) as [idx Hidx].
  { destruct fitness_scores; [|discriminate].
    destruct population; [congruence|discriminate]. }
  destruct (argmax_spec _ _ Hidx) as (m & Hm & Hmax).
  unfold track_best.
  apply returns_bind. eapply returns_lift_result; [exact Hidx|].
  apply returns_bind. eapply returns_lift_result; [apply index_Ok; exact Hm|].
  destruct (Qlt_bool best_fitness m) eqn:Elt.
  - assert (Hlt : (idx < List.length population)%nat).
    { rewrite <- Hlen. eapply lookup_lt_Some. exact Hm. }
    destruct (lookup_lt_is_Some_2 population idx Hlt) as [ind Hind].
    apply returns_bind. apply returns_bind.
    eapply returns_lift_result; [apply index_Ok; exact Hind|].
    apply returns_bind.
    pose proof (keeps_history_deepcopy ind w) as Hk.
    destruct (total_deepcopy ind w) as (copy & w1 & Hc & Hcl).
    rewrite Hc in Hk. simpl in Hk.
    exists copy, w1. split; [exact Hc|].
    apply returns_ret. apply returns_bind.
    eexists tt, _. split; [reflexivity|]. apply returns_ret. simpl.
    exists idx, m. rewrite Elt, Hk. repeat split; auto; [discriminate|].
    intros _. exists ind, copy. auto.
  - apply returns_bind. apply returns_ret. apply returns_bind.
    eexists tt, _. split; [reflexivity|]. apply returns_ret. simpl.
    exists idx, m. rewrite Elt. repeat split; auto. discriminate.
Qed.

(** The loop of lines 196-197 returns when the elite is not larger than
    the population. *)
Lemma elitism_returns (population : list (list nat)) (fitness_scores : list Q) :
  (elitism_count self <= List.length population)%nat ->
  Forall (fun ind => List.length ind = List.length (furniture_list self))
    population ->
  List.length fitness_scores = List.length population ->
  total (G := G) (elitism self population fitness_scores)
    (fun elites =>
       List.length elites = elitism_count self
       /\ Forall (fun ind => List.length ind = List.length (furniture_list self))
            elites).
Proof.
  intros Hsize Hinds Hlen. unfold elitism. eapply total_weaken.
  - apply (total_for_each _ _
      (fun _ copy => List.length copy = List.length (furniture_list self))).
    intros i Hi. apply in_seq in Hi.
    assert (Hlt : (i < List.length (sorted_indices fitness_scores))%nat)
      by (rewrite sorted_indices_length; lia).
    destruct (lookup_lt_is_Some_2 _ _ Hlt) as [idx Hidx].
    pose proof (sorted_indices_bound _ _ _ Hidx) as Hb. rewrite Hlen in Hb.
    destruct (lookup_lt_is_Some_2 population idx Hb) as [ind Hind].
    eapply (total_bind _ _ (fun a => a = idx)).
    { eapply total_lift_result; [apply index_Ok; exact Hidx|reflexivity]. }
    intros ? ->.
    eapply (total_bind _ _ (fun a => a = ind)).
    { eapply total_lift_result; [apply index_Ok; exact Hind|reflexivity]. }
    intros ? ->.
    eapply total_weaken; [apply total_deepcopy|].
    intros copy Hc. simpl in Hc. rewrite Hc.
    rewrite Forall_forall in Hinds. apply Hinds.
    eapply list_elem_of_lookup_2. exact Hind.
  - intros elites HF. split.
    + apply Forall2_length in HF. now rewrite length_seq in HF.
    + clear -HF. induction HF; constructor; auto.
Qed.

Hypothesis enough_individuals : (3 <= population_size self)%nat.
Hypothesis elite_fits : (elitism_count self <= population_size self)%nat.

Lemma total_tournament (population : list (list nat)) (fitness_scores : list Q) :
  population_ok self population ->
  List.length fitness_scores = List.length population ->
  total (tournament population fitness_scores)
    (fun winner => List.length winner = List.length (furniture_list self)).
Proof.
  intros [Hsize Hinds] Hlen w.
  eapply returns_weaken; [apply tournament_returns; lia|].
  intros winner w' ((indices & idx & _ & _ & _ & _ & Hw & _) & _).
  rewrite Forall_forall in Hinds. apply Hinds.
  eapply list_elem_of_lookup_2. exact Hw.
Qed.

Lemma total_elitism (population : list (list nat)) (fitness_scores : list Q) :
  population_ok self population ->
  List.length fitness_scores = List.length population ->
  total (G := G) (elitism self population fitness_scores)
    (fun elites =>
       List.length elites = elitism_count self
       /\ Forall (fun ind => List.length ind = List.length (furniture_list self))
            elites).
Proof.
  intros [Hsize Hinds] Hlen. apply elitism_returns; [lia|exact Hinds|exact Hlen].
Qed.

Lemma total_breed (population : list (list nat)) (fitness_scores : list Q)
    (rounds : nat) :
  population_ok self population ->
  List.length fitness_scores = List.length population ->
  forall new_population,
    Forall (fun ind => List.length ind = List.length (furniture_list self))
      new_population ->
    total (breed self rounds population fitness_scores new_population)
      (fun result =>
         List.length result = (List.length new_population + rounds)%nat
         /\ Forall (fun ind => List.length ind = List.length (furniture_list self))
              result).
Proof.
  intros Hpop Hlen. induction rounds as [|rounds IH]; intros np Hnp; simpl.
  - apply total_ret. split; [lia|exact Hnp].
  - eapply total_bind.
    { unfold select_parents. apply total_repeat_times.
      apply total_tournament; assumption. }
    intros parents [Hl2 HFp].
    destruct parents as [|p1 [|p2 [|p3 rest]]]; try discriminate.
    inversion HFp as [|? ? Hp1 HFp']; subst.
    inversion HFp' as [|? ? Hp2 _]; subst.
    eapply (total_bind _ _ (fun a => a = p1));
      [eapply total_lift_result; reflexivity|]. intros ? ->.
    eapply (total_bind _ _ (fun a => a = p2));
      [eapply total_lift_result; reflexivity|]. intros ? ->.
    eapply total_bind; [apply total_crossover; congruence|].
    intros child Hchild.
    eapply total_bind; [apply total_mutate|]. intros ? ->.
    eapply total_weaken.
    + apply IH. apply Forall_app. split; [exact Hnp|].
      constructor; [congruence|constructor].
    + intros result [Hl HF]. split; [|exact HF].
      rewrite Hl, length_app. simpl. lia.
Qed.

Lemma total_next_population (population : list (list nat)) (fitness_scores : list Q) :
  population_ok self population ->
  List.length fitness_scores = List.length population ->
  total (next_population self population fitness_scores) (population_ok self).
Proof.
  intros Hpop Hlen. unfold next_population.
  eapply total_bind; [apply total_elitism; assumption|].
  intros elites [Hel HF].
  eapply total_weaken; [apply total_breed; assumption|].
  intros result [Hl HF']. split; [|exact HF']. rewrite Hl, Hel. lia.
Qed.

(** One generation on a well-formed population: it returns a well-formed
    population, and the best individual and fitness are as lines 181-186
    compute them from the fitness values of the population. *)
Lemma generation_returns (population : list (list nat)) best_individual
    best_fitness (w : world G) :
  room_ok self ->
  population_ok self population ->
  returns (generation self population best_individual best_fitness) w
    (fun st w' =>
       population_ok self st.1
       /\ exists fitness_scores idx m,
            Forall2 (fun ind f =>
              calculate_fitness self (deref (heap w) ind) = Ok f)
              population fitness_scores
            /\ fitness_scores !! idx = Some m
            /\ Forall (fun v => v <= m) fitness_scores
            /\ st.2.2 = (if Qlt_bool best_fitness m then m else best_fitness)
            /\ (Qlt_bool best_fitness m = false -> st.2.1 = best_individual)
            /\ (Qlt_bool best_fitness m = true ->
                exists copy, st.2.1 = Some copy
                  /\ List.length copy = List.length (furniture_list self))
            /\ best_fitness_history w' = best_fitness_history w ++ [st.2.2]).
Proof.
  intros Hroom Hpop. unfold generation.
  destruct (for_each_fitness_of population w Hroom) as (fs & Hfs & HF).
  assert (Hlen : List.length fs = List.length population).
  { symmetry. eapply Forall2_length. exact HF. }
  apply returns_bind. exists fs, w. split; [exact Hfs|].
  apply returns_bind.
  eapply returns_weaken.
  { apply track_best_returns; [|exact Hlen].
    destruct Hpop as [Hsize _]. destruct population; [simpl in Hsize; lia|discriminate]. }
  intros best w1 (idx & m & _ & Hm & Hmax & Hb & Hkeep & Hnew & Hh).
  apply returns_bind.
  pose proof (keeps_history_next_population self population fs w1) as Hk.
  destruct (total_next_population population fs Hpop Hlen w1)
    as (np & w2 & Hnp & Hok).
  rewrite Hnp in Hk. simpl in Hk.
  exists np, w2. split; [exact Hnp|]. apply returns_ret. simpl.
  split; [exact Hok|]. exists fs, idx, m.
  repeat split; auto; [|congruence].
  intros Elt. destruct (Hnew Elt) as (ind & copy & Hind & Hc & Hcl).
  exists copy. split; [exact Hc|]. rewrite Hcl.
  destruct Hpop as [_ Hinds]. rewrite Forall_forall in Hinds. apply Hinds.
  eapply list_elem_of_lookup_2. exact Hind.
Qed.

End Generation.

(** ** Whole runs *)

Section WholeRuns.

Context {G : Type} `{RandomSource G} {sorter : ArgSort}.

Variable self : GeneticLayoutOptimizer.

Hypothesis enough_individuals : (3 <= population_size self)%nat.
Hypothesis elite_fits : (elitism_count self <= population_size self)%nat.

Lemma generations_loop_returns (n : nat) :
  room_ok self ->
  forall population best_individual best_fitness (w : world G),
    population_ok self population ->
    returns (generations_loop self n population best_individual best_fitness) w
      (fun _ w' =>
         List.length (best_fitness_history w')
         = (List.length (best_fitness_history w) + n)%nat).
Proof.
  intros Hroom. induction n as [|n IH]; intros population bi b w Hpop; simpl.
  - apply returns_ret. lia.
  - apply returns_bind.
    eapply returns_weaken;
      [apply generation_returns; assumption|].
    intros st w1 (Hok & fs & idx & m & _ & _ & _ & _ & _ & _ & Hh).
    eapply returns_weaken; [apply IH; exact Hok|].
    intros r w2 Hl. rewrite Hl, Hh, length_app. simpl. lia.
Qed.

Lemma initialize_population_ok (w : world G) :
  returns (initialize_population self) w
    (fun population w' =>
       population_ok self population
       /\ best_fitness_history w' = best_fitness_history w).
Proof.
  eapply returns_weaken; [apply initialize_population_spec|].
  intros population w' (Hlen & HF & [_ Hh]). split; [|exact Hh].
  split; [exact Hlen|]. eapply Forall_impl; [exact HF|].
  intros ind Hind. symmetry. eapply Forall2_length. exact Hind.
Qed.

(** What the loop holds as best so far: nothing and the fitness 0, or an
    individual with one item for every catalog entry and a positive
    fitness. *)
Definition best_ok (best : option (list nat) * Q) : Prop :=
  best = (None, 0)
  \/ exists copy, best.1 = Some copy
       /\ List.length copy = List.length (furniture_list self)
       /\ 0 < best.2.

Lemma generations_loop_best_ok (n : nat) :
  room_ok self ->
  forall population best_individual best_fitness (w : world G),
    population_ok self population ->
    best_ok (best_individual, best_fitness) ->
    returns (generations_loop self n population best_individual best_fitness) w
      (fun r w' =>
         best_ok r
         /\ (n = 0%nat -> r = (best_individual, best_fitness))
         /\ List.length (best_fitness_history w')
            = (List.length (best_fitness_history w) + n)%nat).
Proof.
  intros Hroom. induction n as [|n IH]; intros population bi b w Hpop Hbest; simpl.
  - apply returns_ret. split; [exact Hbest|]. split; [reflexivity|lia].
  - apply returns_bind.
    eapply returns_weaken;
      [apply generation_returns; assumption|].
    intros st w1 (Hok & fs & idx & m & _ & _ & _ & Hb & Hkeep & Hnew & Hh).
    assert (Hbest1 : best_ok (st.2.1, st.2.2)).
    { assert (H0 : 0 <= b).
      { destruct Hbest as [[= _ ->]|(c & _ & _ & Hpos)]; simpl in *; lra. }
      destruct (Qlt_bool b m) eqn:Elt.
      - right. destruct (Hnew eq_refl) as (copy & Hc & Hcl).
        exists copy. simpl. split; [exact Hc|]. split; [exact Hcl|].
        rewrite Hb. apply Qlt_bool_iff in Elt. lra.
      - rewrite (Hkeep eq_refl), Hb. exact Hbest. }
    eapply returns_weaken; [apply (IH st.1 st.2.1 st.2.2 w1 Hok Hbest1)|].
    intros r w2 (Hr & _ & Hl). split; [exact Hr|]. split; [discriminate|].
    rewrite Hl, Hh, length_app. simpl. lia.
Qed.

Lemma optimize_best_ok (w : world G) :
  room_ok self ->
  returns (optimize self) w
    (fun r w' =>
       List.length (best_fitness_history w') = generations self
       /\ (r = (None, 0)
           \/ exists best, r.1 = Some best
                /\ List.length best = List.length (furniture_list self)
                /\ 0 < r.2)
       /\ (generations self = 0%nat -> r = (None, 0))).
Proof.
  intros Hroom. unfold optimize. apply returns_bind.
  eapply returns_weaken; [apply initialize_population_ok|].
  intros population w1 [Hpop _]. apply returns_bind.
  eexists tt, _. split; [reflexivity|].
  eapply returns_weaken.
  - apply (generations_loop_best_ok (generations self) Hroom population None 0);
      [exact Hpop|left; reflexivity].
  - intros r w2 (Hr & H0 & Hl). split; [rewrite Hl; reflexivity|].
    split; [exact Hr|exact H0].
Qed.

(** [optimize] returns whenever the room has a grid, the population has
    three individuals or more and the elite fits in it.  It returns no
    individual and the fitness 0, or an individual with one item for every
    catalog entry and a positive fitness; the history has one entry for
    every generation. *)
Theorem optimize_returns (w : world G) :
  room_ok self ->
  returns (optimize self) w
    (fun r w' =>
       List.length (best_fitness_history w') = generations self
       /\ (r = (None, 0)
           \/ exists best, r.1 = Some best
                /\ List.length best = List.length (furniture_list self)
                /\ 0 < r.2)
       /\ (generations self = 0%nat -> r = (None, 0))).
Proof. apply optimize_best_ok. Qed.

End WholeRuns.

(** ** An item larger than the room *)

(** A room of one unit by one unit and a bed of two by two. *)
Definition oversized_config : GeneticLayoutOptimizer :=
  optimizer_init 1 1 [Furniture.init "Bed" 2 2] None 3 1 (1 # 5) 1.

Lemma placed_oversized self furniture obj :
  placed self furniture obj ->
  (room_length self < Furniture.length obj ->
     Furniture.x obj <= 0
     /\ room_length self < Furniture.x obj + Furniture.length obj)
  /\ (room_width self < Furniture.width obj ->
     Furniture.y obj <= 0
     /\ room_width self < Furniture.y obj + Furniture.width obj).
Proof.
  intros (u & v & f & [Hu0 Hu1] & [Hv0 Hv1] & _ & ->). simpl.
  split; intros Hlt; split; nra.
Qed.

Lemma placed_within_room self furniture obj :
  placed self furniture obj ->
  Furniture.length obj <= room_length self ->
  Furniture.width obj <= room_width self ->
  within_room self obj.
Proof.
  intros (u & v & f & [Hu0 Hu1] & [Hv0 Hv1] & _ & ->). unfold within_room. simpl.
  intros Hl Hw. repeat split; nra.
Qed.

Lemma oversized_config_returns {G : Type} `{RandomSource G} {sorter : ArgSort}
    (w : world G) :
  returns (optimize oversized_config) w
    (fun _ w' =>
       List.length (best_fitness_history w') = generations oversized_config).
Proof.
  unfold optimize. apply returns_bind.
  eapply returns_weaken; [apply initialize_population_ok|].
  intros population w1 [Hpop _]. apply returns_bind.
  eexists tt, _. split; [reflexivity|].
  eapply returns_weaken.
  - apply (generations_loop_returns oversized_config); [simpl; lia|simpl; lia| |exact Hpop].
    vm_compute. split; discriminate.
  - intros r w2 Hl. rewrite Hl. reflexivity.
Qed.

(** C7 (the code does not do what the claim asks for): no configuration is
    rejected.  [initialize_population] returns for every configuration,
    with [population_size] individuals whose items are the catalog items,
    as they are or rotated once, at [x = (room_length - length) * u] and
    [y = (room_width - width) * v] for draws [u], [v] in [0, 1).  An item
    that fits the room is thereby put within the room, as the comment of
    line 40 says; an item longer or wider than the room is put at a
    position that is not positive, from which it reaches beyond the
    opposite wall: it is not within the room, and nothing is raised.  With
    the bed of two by two in the room of one by one, [optimize] runs all
    its generations and returns. *)
Theorem oversized_item_is_placed {G : Type} `{RandomSource G} {sorter : ArgSort}
    (self : GeneticLayoutOptimizer) (w : world G) :
  returns (initialize_population self) w
    (fun population w' =>
       List.length population = population_size self
       /\ Forall (individual_placed self w') population
       /\ extends w w')
  /\ (forall furniture obj, placed self furniture obj ->
       (Furniture.length obj <= room_length self ->
        Furniture.width obj <= room_width self ->
        within_room self obj)
       /\ (room_length self < Furniture.length obj ->
          Furniture.x obj <= 0
          /\ room_length self < Furniture.x obj + Furniture.length obj
          /\ ~ within_room self obj)
       /\ (room_width self < Furniture.width obj ->
          Furniture.y obj <= 0
          /\ room_width self < Furniture.y obj + Furniture.width obj
          /\ ~ within_room self obj))
  /\ returns (optimize oversized_config) w
       (fun _ w' =>
          List.length (best_fitness_history w') = generations oversized_config).
Proof.
  split; [apply initialize_population_spec|].
  split; [|apply oversized_config_returns].
  intros furniture obj Hp.
  destruct (placed_oversized _ _ _ Hp) as [Hx Hy].
  split; [apply (placed_within_room _ _ _ Hp)|].
  unfold within_room.
  split; intros Hlt; [destruct (Hx Hlt)|destruct (Hy Hlt)];
    (split; [assumption|]); (split; [assumption|]); intros [[? ?] [? ?]]; lra.
Qed.

(** C7, evaluated: the configuration with the oversized bed is not
    rejected; the first population is built with the bed at a negative
    position, outside the room, and the whole optimization returns a
    layout. *)
Lemma oversized_config_is_accepted :
  (exists population w',
     initialize_population oversized_config world0 = (Ok population, w')
     /\ Furniture.x (heap w' !!! 0%nat) < 0
     /\ ~ within_room oversized_config (heap w' !!! 0%nat))
  /\ exists (best : individual) (fitness : Q) w',
       optimize oversized_config world0 = (Ok (Some best, fitness), w').
Proof.
  split.
  - eexists _, _. split; [vm_compute; reflexivity|].
    split; [vm_compute; reflexivity|].
    intros [[Hx _] _]. vm_compute in Hx. apply Hx. reflexivity.
  - eexists _, _, _. vm_compute. reflexivity.
Qed.

(** ** The history of a run *)

Section OptimizeHistory.

Context {G : Type} `{RandomSource G} {sorter : ArgSort}.

Variable self : GeneticLayoutOptimizer.

(** What one generation hands to lines 181-186: the fitness of every
    individual of its population, in the world the generation starts in;
    the value appended is the greatest of these when it exceeds the best
    fitness so far, and that best fitness otherwise.  A generation that
    raises does so before it appends, or after it has appended that
    value. *)
Lemma generation_link population best_individual best_fitness (w : world G) :
  match generation self population best_individual best_fitness w with
  | (Ok st, w') =>
      exists fitness_scores idx m,
        Forall2 (fun ind f => calculate_fitness self (deref (heap w) ind) = Ok f)
          population fitness_scores
        /\ fitness_scores !! idx = Some m
        /\ Forall (fun v => v <= m) fitness_scores
        /\ st.2.2 = (if Qlt_bool best_fitness m then m else best_fitness)
        /\ (Qlt_bool best_fitness m = false -> st.2.1 = best_individual)
        /\ best_fitness_history w' = best_fitness_history w ++ [st.2.2]
  | (Raise _, w') =>
      best_fitness_history w' = best_fitness_history w
      \/ exists fitness_scores idx m,
           Forall2 (fun ind f => calculate_fitness self (deref (heap w) ind) = Ok f)
             population fitness_scores
           /\ fitness_scores !! idx = Some m
           /\ Forall (fun v => v <= m) fitness_scores
           /\ best_fitness_history w'
              = best_fitness_history w
                ++ [if Qlt_bool best_fitness m then m else best_fitness]
  end.
Proof.
  unfold generation, bind.
  pose proof (keeps_history_for_each (fitness_of self) population
                (keeps_history_fitness_of self) w) as Hf.
  destruct (for_each (fitness_of self) population w) as [[fs|e] w1] eqn:Efs;
    simpl in Hf; [|left; exact Hf].
  destruct (for_each_fitness_of_inv self _ _ _ _ Efs) as [-> HF].
  pose proof (track_best_spec population fs best_individual best_fitness w) as Ht.
  destruct (track_best population fs best_individual best_fitness w)
    as [[best|e] w2]; [|left; exact Ht].
  destruct Ht as (idx & m & _ & Hm & Hmax & Hb & Hkeep & Hh).
  pose proof (keeps_history_next_population self population fs w2) as Hn.
  destruct (next_population self population fs w2) as [[np|e] w3]; simpl in *.
  - exists fs, idx, m. repeat split; auto. congruence.
  - right. exists fs, idx, m. repeat split; auto. congruence.
Qed.




End OptimizeHistory.

(** ** Runs in which every fitness is 0 *)

Section AllZero.

Context {G : Type} `{RandomSource G} {sorter : ArgSort}.

Variable self : GeneticLayoutOptimizer.

Hypothesis enough_individuals : (3 <= population_size self)%nat.
Hypothesis elite_fits : (elitism_count self <= population_size self)%nat.

Lemma generations_loop_all_zero (n : nat) :
  forall population (w : world G),
    population_ok self population ->
    (forall k st w', (k < n)%nat ->
       generations_prefix self k population None 0 w = (Ok st, w') ->
       all_fitness_zero self w' st.1) ->
    exists w', generations_loop self n population None 0 w = (Ok (None, 0), w').
Proof.
  induction n as [|n IH]; intros population w Hpop Hzero.
  - exists w. reflexivity.
  - assert (Hz0 : all_fitness_zero self w population).
    { apply (Hzero 0%nat (population, (None, 0)) w); [lia|reflexivity]. }
    assert (Hroom : room_ok self).
    { destruct Hpop as [Hsize _].
      destruct population as [|ind rest]; [simpl in Hsize; lia|].
      inversion Hz0 as [|? ? (f & Hf & _) _]; subst.
      eapply calculate_fitness_Ok_room_ok. exact Hf. }
    destruct (generation_returns self enough_individuals elite_fits
                population None 0 w Hroom Hpop)
      as (st & w1 & Hgen & Hok & fs & idx & m & HF & Hm & _ & Hb & Hkeep & _ & _).
    assert (Hm0 : m == 0).
    { rewrite Forall2_lookup in HF. specialize (HF idx). rewrite Hm in HF.
      inversion HF as [ind f' Hcalc Hind Hf'|]; subst.
      symmetry in Hind. apply list_elem_of_lookup_2 in Hind.
      unfold all_fitness_zero in Hz0. rewrite Forall_forall in Hz0.
      destruct (Hz0 ind Hind) as (f & Hf & Hf0). congruence. }
    assert (Elt : Qlt_bool 0 m = false) by (apply Qlt_bool_false; lra).
    rewrite Elt in Hb. specialize (Hkeep Elt).
    destruct st as [np [bi b]]. simpl in *. subst bi b.
    destruct (IH np w1 Hok) as [w' Hloop].
    + intros k st' w' Hk Hpre. apply (Hzero (S k) st' w'); [lia|].
      simpl. rewrite (bind_ok _ _ _ _ _ Hgen). exact Hpre.
    + exists w'. rewrite (bind_ok _ _ _ _ _ Hgen). exact Hloop.
Qed.

End AllZero.

(** When every individual of every generation has fitness 0, the strict
    comparison of line 182 never holds: [optimize] returns no individual
    ([None]) and the fitness 0 it started from.  The run is one with three
    individuals or more and an elite that fits, so that it returns. *)
Theorem all_zero_fitness_returns_no_individual {G : Type} `{RandomSource G}
    {sorter : ArgSort}
    (self : GeneticLayoutOptimizer) (w : world G) :
  (3 <= population_size self)%nat ->
  (elitism_count self <= population_size self)%nat ->
  (forall k st w', (k < generations self)%nat ->
     state_after self k w = (Ok st, w') ->
     all_fitness_zero self w' st.1) ->
  exists w', optimize self w = (Ok (None, 0), w').
Proof.
  intros Hn He Hzero.
  destruct (initialize_population_ok self w) as (population & w1 & Hinit & Hpop & _).
  set (w2 := mkWorld (heap w1) (rng w1) ([] : list Q)).
  assert (Hopt : optimize self w
                 = generations_loop self (generations self) population None 0 w2).
  { unfold optimize. rewrite (bind_ok _ _ _ _ _ Hinit).
    rewrite (bind_ok _ _ w1 tt w2); reflexivity. }
  rewrite Hopt.
  apply (generations_loop_all_zero self Hn He); [exact Hpop|].
  intros k st w' Hk Hpre. apply (Hzero k st w' Hk).
  unfold state_after. rewrite (bind_ok _ _ _ _ _ Hinit).
  rewrite (bind_ok _ _ w1 tt w2); [exact Hpre|reflexivity].
Qed.

(** A room under seven fixed elements that cover it: every placement of
    the stool overlaps all seven. *)
Definition covered_config : GeneticLayoutOptimizer :=
  optimizer_init 1 1 [Furniture.init "Stool" (1 # 2) (1 # 2)]
    (Some (repeat (FixedElement.mk "Window" (-10) (-10) 20 20) 7))
    3 2 (1 # 5) 1.

Lemma all_zero_fitness_returns_no_individual_witness :
  exists w', optimize covered_config world0 = (Ok (None, 0), w').
Proof.
  apply (all_zero_fitness_returns_no_individual covered_config world0).
  - simpl. lia.
  - simpl. lia.
  - intros k st w' Hk Hst. simpl in Hk.
    destruct k as [|[|k]]; [| |lia].
    + vm_compute in Hst. injection Hst as <- <-.
      repeat constructor; eexists; (split; [vm_compute; reflexivity|reflexivity]).
    + vm_compute in Hst. injection Hst as <- <-.
      repeat constructor; eexists; (split; [vm_compute; reflexivity|reflexivity]).
Defined.

Section AllZeroRuns.

Context {G : Type} `{RandomSource G} {sorter : ArgSort}.

Variable self : GeneticLayoutOptimizer.

(** Whatever the configuration: a loop whose generations all score 0
    ends, if it ends, with no individual and the fitness 0, after it has
    appended one 0 per generation. *)
Lemma generations_loop_all_zero_inv (n : nat) :
  forall population (w : world G),
    (forall k st w', (k < n)%nat ->
       generations_prefix self k population None 0 w = (Ok st, w') ->
       all_fitness_zero self w' st.1) ->
    forall r w',
      generations_loop self n population None 0 w = (Ok r, w') ->
      r = (None, 0)
      /\ best_fitness_history w' = best_fitness_history w ++ repeat 0 n.
Proof.
  induction n as [|n IH]; intros population w Hzero r w' Hrun.
  - simpl in Hrun. injection Hrun as <- <-.
    split; [reflexivity|]. simpl. now rewrite app_nil_r.
  - assert (Hz0 : all_fitness_zero self w population).
    { apply (Hzero 0%nat (population, (None, 0)) w); [lia|reflexivity]. }
    simpl in Hrun. unfold bind in Hrun at 1.
    pose proof (generation_link self population None 0 w) as Hg.
    destruct (generation self population None 0 w) as [[st|e] w1] eqn:Hgen;
      [|discriminate].
    destruct Hg as (fs & idx & m & HF & Hm & _ & Hb & Hkeep & Hh).
    assert (Hm0 : m == 0).
    { rewrite Forall2_lookup in HF. specialize (HF idx). rewrite Hm in HF.
      inversion HF as [ind f' Hcalc Hind Hf'|]; subst.
      symmetry in Hind. apply list_elem_of_lookup_2 in Hind.
      unfold all_fitness_zero in Hz0. rewrite Forall_forall in Hz0.
      destruct (Hz0 ind Hind) as (f & Hf & Hf0). congruence. }
    assert (Elt : Qlt_bool 0 m = false) by (apply Qlt_bool_false; lra).
    rewrite Elt in Hb. specialize (Hkeep Elt).
    destruct st as [np [bi b]]. simpl in *. subst bi b.
    destruct (IH np w1) with (r := r) (w' := w') as [Hr Hh'].
    + intros k st' w'' Hk Hpre. apply (Hzero (S k) st' w''); [lia|].
      simpl. rewrite (bind_ok _ _ _ _ _ Hgen). exact Hpre.
    + exact Hrun.
    + split; [exact Hr|]. rewrite Hh', Hh, <- app_assoc. reflexivity.
Qed.

End AllZeroRuns.

(** C9: when every individual of every generation has fitness 0, the
    strict comparison of line 182 never holds.  Whatever the
    configuration, a run that returns then returns no individual ([None])
    with the fitness 0, its history being one 0 per generation; and with
    three individuals or more and an elite that fits, the run does
    return. *)
Theorem zero_fitness_run_returns_none {G : Type} `{RandomSource G}
    {sorter : ArgSort} (self : GeneticLayoutOptimizer) (w : world G) :
  (forall k st w', (k < generations self)%nat ->
     state_after self k w = (Ok st, w') ->
     all_fitness_zero self w' st.1) ->
  (forall r w', optimize self w = (Ok r, w') ->
     r = (None, 0)
     /\ best_fitness_history w' = repeat 0 (generations self))
  /\ ((3 <= population_size self)%nat ->
      (elitism_count self <= population_size self)%nat ->
      exists w', optimize self w = (Ok (None, 0), w')).
Proof.
  intros Hzero.
  destruct (initialize_population_ok self w) as (population & w1 & Hinit & Hpop & _).
  set (w2 := mkWorld (heap w1) (rng w1) ([] : list Q)).
  assert (Hopt : optimize self w
                 = generations_loop self (generations self) population None 0 w2).
  { unfold optimize. rewrite (bind_ok _ _ _ _ _ Hinit).
    rewrite (bind_ok _ _ w1 tt w2); reflexivity. }
  assert (Hzero' : forall k st w', (k < generations self)%nat ->
            generations_prefix self k population None 0 w2 = (Ok st, w') ->
            all_fitness_zero self w' st.1).
  { intros k st w' Hk Hpre. apply (Hzero k st w' Hk).
    unfold state_after. rewrite (bind_ok _ _ _ _ _ Hinit).
    rewrite (bind_ok _ _ w1 tt w2); [exact Hpre|reflexivity]. }
  rewrite Hopt. split.
  - intros r w' Hrun.
    apply (generations_loop_all_zero_inv self (generations self) population w2
             Hzero' r w' Hrun).
  - intros Hn He.
    apply (generations_loop_all_zero self Hn He); assumption.
Qed.

Lemma zero_fitness_run_returns_none_witness :
  (forall r w', optimize covered_config world0 = (Ok r, w') ->
     r = (None, 0) /\ best_fitness_history w' = [0; 0])
  /\ exists w', optimize covered_config world0 = (Ok (None, 0), w').
Proof.
  assert (Hzero : forall k st w', (k < generations covered_config)%nat ->
            state_after covered_config k world0 = (Ok st, w') ->
            all_fitness_zero covered_config w' st.1).
  { intros k st w' Hk Hst. simpl in Hk.
    destruct k as [|[|k]]; [| |lia].
    + vm_compute in Hst. injection Hst as <- <-.
      repeat constructor; eexists; (split; [vm_compute; reflexivity|reflexivity]).
    + vm_compute in Hst. injection Hst as <- <-.
      repeat constructor; eexists; (split; [vm_compute; reflexivity|reflexivity]). }
  destruct (zero_fitness_run_returns_none covered_config world0 Hzero) as [Hinv Hret].
  split; [exact Hinv|]. apply Hret; simpl; lia.
Defined.

(** ** Runs on an empty catalog *)

Section EmptyCatalog.

Context {G : Type} `{RandomSource G} {sorter : ArgSort}.

Variable self : GeneticLayoutOptimizer.

Hypothesis no_furniture : furniture_list self = [].
Hypothesis enough_individuals : (3 <= population_size self)%nat.
Hypothesis elite_fits : (elitism_count self <= population_size self)%nat.
Hypothesis room_has_cells :
  (0 < py_int (room_width self * grid_size)
   /\ 0 < py_int (room_length self * grid_size))%Z.

Lemma room_has_cells_ok : room_ok self.
Proof using room_has_cells.
  clear no_furniture enough_individuals elite_fits.
  unfold room_ok. lia.
Qed.

(** The fitness of the empty arrangement: 100 plus the walkability
    reward of the room with its fixed elements. *)
Lemma empty_arrangement_fitness :
  exists f, calculate_fitness self [] = Ok f /\ 100 <= f.
Proof using room_has_cells.
  clear no_furniture enough_individuals elite_fits.
  unfold calculate_fitness.
  destruct (raw_score self []) as [[score|]|e] eqn:E.
  - exists (py_max0 score). split; [reflexivity|].
    destruct (raw_score_formula _ _ _ E) as (w & [Hw0 _] & Hs).
    change (fixed_overlap_count [] (fixed_elements self)) with 0%nat in Hs.
    change (furniture_overlap_count []) with 0%nat in Hs.
    change (near_wall_count self []) with 0%nat in Hs.
    change (Qnat 0) with 0 in Hs.
    unfold py_max0. destruct (Qlt_bool 0 score) eqn:Epos; [lra|].
    apply Qlt_bool_false in Epos. lra.
  - exfalso. unfold raw_score in E.
    destruct (occupancy_grid self []) as [[[rows cols] grid]|e] eqn:Eg;
      [|discriminate].
    unfold occupancy_grid in Eg. destruct (_ || _); [discriminate|].
    injection Eg as <- <- <-.
    unfold walkability in E.
    destruct (Z.to_nat _ * Z.to_nat _)%nat eqn:Em; [|discriminate].
    destruct room_has_cells. nia.
  - exfalso. unfold raw_score in E.
    destruct (occupancy_grid self []) as [[[rows cols] grid]|e'] eqn:Eg.
    + destruct (walkability rows cols grid); discriminate.
    + apply occupancy_grid_raises in Eg. destruct room_has_cells. lia.
Qed.

Lemma generations_loop_empty (f : Q) (n : nat) :
  calculate_fitness self [] = Ok f -> 100 <= f ->
  forall population best_individual best_fitness (w : world G),
    population_ok self population ->
    ((best_individual, best_fitness) = (None, 0)
     \/ (best_individual, best_fitness) = (Some [], f)) ->
    returns (generations_loop self n population best_individual best_fitness) w
      (fun r w' =>
         r = match n with
             | O => (best_individual, best_fitness)
             | S _ => (Some [], f)
             end
         /\ best_fitness_history w' = best_fitness_history w ++ repeat f n).
Proof using no_furniture enough_individuals elite_fits room_has_cells.
  intros Hf H100. induction n as [|n IH]; intros population bi b w Hpop Hst.
  - apply returns_ret. split; [reflexivity|]. now rewrite app_nil_r.
  - simpl generations_loop. apply returns_bind.
    eapply returns_weaken;
      [apply generation_returns; auto using room_has_cells_ok|].
    intros st w1 (Hok & fs & idx & m & HF & Hm & _ & Hb & Hkeep & Hnew & Hh).
    assert (Hmf : m = f).
    { rewrite Forall2_lookup in HF. specialize (HF idx). rewrite Hm in HF.
      inversion HF as [ind f' Hcalc Hind Hf'|]; subst.
      symmetry in Hind. apply list_elem_of_lookup_2 in Hind.
      destruct Hpop as [_ Hinds]. rewrite Forall_forall in Hinds.
      specialize (Hinds ind Hind). rewrite no_furniture in Hinds.
      destruct ind; [|discriminate]. simpl in Hcalc. congruence. }
    subst m.
    assert (Hst' : (st.2.1, st.2.2) = (Some [], f)).
    { destruct Hst as [[= -> ->]|[= -> ->]].
      - assert (Elt : Qlt_bool 0 f = true) by (apply Qlt_bool_iff; lra).
        rewrite Elt in Hb. destruct (Hnew Elt) as (copy & Hc & Hcl).
        rewrite no_furniture in Hcl. destruct copy; [|discriminate].
        now rewrite Hc, Hb.
      - assert (Elt : Qlt_bool f f = false) by (apply Qlt_bool_false; lra).
        rewrite Elt in Hb. rewrite (Hkeep Elt), Hb. reflexivity. }
    injection Hst' as Hbi Hbf.
    eapply returns_weaken; [apply (IH st.1 st.2.1 st.2.2 w1 Hok)|].
    + right. now rewrite Hbi, Hbf.
    + intros r w2 [Hr Hh2]. split.
      * rewrite Hr. destruct n; [now rewrite Hbi, Hbf|reflexivity].
      * rewrite Hh2, Hh, Hbf, <- app_assoc. reflexivity.
Qed.

End EmptyCatalog.

(** C8 (as the code has it): with an empty catalog [optimize] does not
    stop early.  In a room whose grid has a cell, with three individuals or
    more and an elite that fits, it runs every generation on individuals
    without items, returns the empty arrangement (no individual at all
    when there is no generation) with the fitness of the bare room, which
    is at least 100, and records that fitness once per generation. *)
Theorem empty_catalog_runs_every_generation {G : Type} `{RandomSource G}
    {sorter : ArgSort}
    (self : GeneticLayoutOptimizer) (w : world G) :
  furniture_list self = [] ->
  (3 <= population_size self)%nat ->
  (elitism_count self <= population_size self)%nat ->
  (0 < py_int (room_width self * grid_size)
   /\ 0 < py_int (room_length self * grid_size))%Z ->
  exists f w',
    calculate_fitness self [] = Ok f
    /\ 100 <= f
    /\ optimize self w
       = (Ok (match generations self with
              | O => (None, 0)
              | S _ => (Some [], f)
              end), w')
    /\ best_fitness_history w' = repeat f (generations self).
Proof.
  intros Hempty Hn He Hroom.
  destruct (empty_arrangement_fitness self Hroom) as (f & Hf & H100).
  destruct (initialize_population_ok self w) as (population & w1 & Hinit & Hpop & _).
  set (w2 := mkWorld (heap w1) (rng w1) ([] : list Q)).
  destruct (generations_loop_empty self Hempty Hn He Hroom f (generations self)
              Hf H100 population None 0 w2 Hpop (or_introl eq_refl))
    as (r & w' & Hloop & -> & Hh).
  exists f, w'. repeat split; auto.
  unfold optimize. rewrite (bind_ok _ _ _ _ _ Hinit).
  rewrite (bind_ok _ _ w1 tt w2); [exact Hloop|reflexivity].
Qed.

(** A bare room of one unit by one unit, three individuals, two
    generations. *)
Definition empty_config : GeneticLayoutOptimizer :=
  optimizer_init 1 1 [] None 3 2 (1 # 5) 1.

Lemma empty_catalog_runs_every_generation_witness :
  exists f w',
    calculate_fitness empty_config [] = Ok f
    /\ 100 <= f
    /\ optimize empty_config world0 = (Ok (Some [], f), w')
    /\ best_fitness_history w' = [f; f].
Proof.
  apply (empty_catalog_runs_every_generation empty_config world0).
  - reflexivity.
  - simpl. lia.
  - simpl. lia.
  - vm_compute. split; reflexivity.
Defined.

(** C8 (against the claim as stated): with an empty catalog the loop is
    not skipped.  With three individuals and two generations the run
    appends one history entry per generation, and the tournaments of both
    generations have drawn from the generator, whose state has changed. *)
Lemma empty_catalog_loop_runs :
  exists f w',
    optimize empty_config world0 = (Ok (Some [], f), w')
    /\ best_fitness_history w' = [f; f]
    /\ rng w' <> rng world0.
Proof.
  eexists _, _. split; [vm_compute; reflexivity|].
  split; [vm_compute; reflexivity|]. vm_compute. discriminate.
Qed.

(** A room of five by four with a door, and a bed and a sofa to place. *)
Definition bedroom_config : GeneticLayoutOptimizer :=
  optimizer_init 5 4
    [Furniture.init "Bed" (3 # 2) 2; Furniture.init "Sofa" (9 # 10) (11 # 5)]
    (Some [FixedElement.mk "Door" 0 0 (1 # 5) (9 # 10)])
    4 3 (1 # 5) 2.

Lemma optimize_returns_witness :
  returns (optimize bedroom_config) world0
    (fun r w' =>
       List.length (best_fitness_history w') = generations bedroom_config
       /\ (r = (None, 0)
           \/ exists best, r.1 = Some best
                /\ List.length best = List.length (furniture_list bedroom_config)
                /\ 0 < r.2)
       /\ (generations bedroom_config = 0%nat -> r = (None, 0))).
Proof.
  apply (optimize_returns bedroom_config).
  - simpl. lia.
  - simpl. lia.
  - vm_compute. split; discriminate.
Defined.

(** ** An elite larger than the population *)

Section EliteTooLarge.

Context {G : Type} `{RandomSource G} {sorter : ArgSort}.

(** A loop over a list raises where its first failing round raises. *)
Lemma for_each_raises {A B} (f : A -> M G B) (l1 l2 : list A) (a : A) (e : exn) :
  (forall b, In b l1 -> total (f b) (fun _ => True)) ->
  (forall w, exists w', f a w = (Raise e, w')) ->
  forall w, exists w', for_each f (l1 ++ a :: l2) w = (Raise e, w').
Proof.
  intros Hl1 Ha. induction l1 as [|b l1 IH]; intros w; simpl.
  - destruct (Ha w) as [w' Hw]. exists w'. now apply bind_raise.
  - destruct (Hl1 b (or_introl eq_refl) w) as (v & w1 & Hb & _).
    destruct (IH (fun c Hc => Hl1 c (or_intror Hc)) w1) as [w' Hw].
    exists w'. rewrite (bind_ok _ _ _ _ _ Hb). now apply bind_raise.
Qed.

Variable self : GeneticLayoutOptimizer.

(** Lines 195-197 with [elitism_count] above the population size: the
    loop copies every individual and then indexes [sorted_indices] out of
    range. *)
Lemma elitism_raises (population : list (list nat)) (fitness_scores : list Q)
    (w : world G) :
  List.length fitness_scores = List.length population ->
  (List.length population < elitism_count self)%nat ->
  exists w', elitism self population fitness_scores w = (Raise IndexError, w').
Proof.
  intros Hlen Hlt. unfold elitism.
  set (n := List.length population) in *.
  assert (Hseq : seq 0 (elitism_count self)
                 = seq 0 n ++ n :: seq (S n) (elitism_count self - S n)).
  { assert (E : elitism_count self = (n + S (elitism_count self - S n))%nat) by lia.
    rewrite E at 1. rewrite seq_app. reflexivity. }
  rewrite Hseq.
  apply for_each_raises.
  - intros i Hi. apply in_seq in Hi.
    assert (Hlt' : (i < List.length (sorted_indices fitness_scores))%nat)
      by (rewrite sorted_indices_length; lia).
    destruct (lookup_lt_is_Some_2 _ _ Hlt') as [idx Hidx].
    pose proof (sorted_indices_bound _ _ _ Hidx) as Hb. rewrite Hlen in Hb.
    destruct (lookup_lt_is_Some_2 population idx Hb) as [ind Hind].
    eapply (total_bind _ _ (fun a => a = idx)).
    { eapply total_lift_result; [apply index_Ok; exact Hidx|reflexivity]. }
    intros ? ->.
    eapply (total_bind _ _ (fun a => a = ind)).
    { eapply total_lift_result; [apply index_Ok; exact Hind|reflexivity]. }
    intros ? ->.
    eapply total_weaken; [apply total_deepcopy|]. auto.
  - intros w1. exists w1. apply bind_raise.
    unfold lift_result, index.
    rewrite lookup_ge_None_2; [reflexivity|].
    rewrite sorted_indices_length. lia.
Qed.

(** The first generation on a population smaller than the elite. *)
Lemma generation_raises_when_elite_exceeds_population
    (population : list (list nat)) best_individual best_fitness (w : world G) :
  room_ok self ->
  population_ok self population ->
  (1 <= population_size self < elitism_count self)%nat ->
  exists w',
    generation self population best_individual best_fitness w
    = (Raise IndexError, w').
Proof.
  intros Hroom Hpop [Hpos Hlt].
  destruct (for_each_fitness_of self population w Hroom) as (fs & Hfs & HF).
  assert (Hlen : List.length fs = List.length population).
  { symmetry. eapply Forall2_length. exact HF. }
  destruct Hpop as [Hsize Hinds].
  destruct (track_best_returns population fs best_individual best_fitness w)
    as (best & w3 & Ht & _).
  { destruct population; [simpl in Hsize; lia|discriminate]. }
  { exact Hlen. }
  destruct (elitism_raises population fs w3 Hlen) as [w4 He]; [lia|].
  exists w4. unfold generation.
  rewrite (bind_ok _ _ _ _ _ Hfs). rewrite (bind_ok _ _ _ _ _ Ht).
  apply bind_raise. unfold next_population. now apply bind_raise.
Qed.

(** With [elitism_count] above a population of at least one individual,
    the first generation of [optimize] raises [IndexError]: no run is
    possible. *)
Theorem optimize_raises_when_elite_exceeds_population (w : world G) :
  room_ok self ->
  (1 <= population_size self < elitism_count self)%nat ->
  (1 <= generations self)%nat ->
  exists w', optimize self w = (Raise IndexError, w').
Proof.
  intros Hroom Hsize Hgen.
  destruct (initialize_population_ok self w) as (population & w1 & Hinit & Hpop & _).
  set (w2 := mkWorld (heap w1) (rng w1) ([] : list Q)).
  destruct (generation_raises_when_elite_exceeds_population population None 0 w2
              Hroom Hpop Hsize) as [w4 He].
  exists w4. unfold optimize.
  rewrite (bind_ok _ _ _ _ _ Hinit).
  rewrite (bind_ok _ _ w1 tt w2) by reflexivity.
  destruct (generations self) as [|g]; [lia|]. simpl.
  now apply bind_raise.
Qed.

End EliteTooLarge.

(** Four individuals and an elite of five. *)
Definition small_population_config : GeneticLayoutOptimizer :=
  optimizer_init 5 4 [Furniture.init "Bed" (3 # 2) 2] None 4 100 (1 # 5) 5.

Lemma optimize_raises_when_elite_exceeds_population_witness :
  exists w', optimize small_population_config world0 = (Raise IndexError, w').
Proof.
  apply (optimize_raises_when_elite_exceeds_population small_population_config world0).
  - vm_compute. split; discriminate.
  - simpl. lia.
  - simpl. lia.
Defined.

(** ** Populations that are too small *)

Section SmallPopulations.

Context {G : Type} `{RandomSource G} {sorter : ArgSort}.

Variable self : GeneticLayoutOptimizer.

(** Without individuals the first generation has no score to take the
    maximum of: [np.argmax] raises [ValueError], whatever the room and the
    catalog. *)
Theorem optimize_raises_without_individuals (w : world G) :
  population_size self = 0%nat ->
  (1 <= generations self)%nat ->
  exists w', optimize self w = (Raise ValueError, w').
Proof.
  intros Hsize Hgen.
  destruct (initialize_population_ok self w)
    as (population & w1 & Hinit & [Hlen _] & _).
  rewrite Hsize in Hlen. destruct population; [|discriminate].
  eexists. unfold optimize.
  rewrite (bind_ok _ _ _ _ _ Hinit).
  rewrite (bind_ok _ _ w1 tt (mkWorld (heap w1) (rng w1) [])) by reflexivity.
  destruct (generations self) as [|g]; [lia|]. reflexivity.
Qed.

(** With one or two individuals and an elite that leaves room for a
    child, the first generation reaches [select_parents], whose sample of
    three raises [ValueError]. *)
Theorem optimize_raises_when_parents_cannot_be_sampled (w : world G) :
  room_ok self ->
  (elitism_count self < population_size self < 3)%nat ->
  (1 <= generations self)%nat ->
  exists w', optimize self w = (Raise ValueError, w').
Proof.
  intros Hroom [Helite Hsize] Hgen.
  destruct (initialize_population_ok self w)
    as (population & w1 & Hinit & Hpop & _).
  set (w2 := mkWorld (heap w1) (rng w1) ([] : list Q)).
  destruct (for_each_fitness_of self population w2 Hroom) as (fs & Hfs & HF).
  assert (Hlen : List.length fs = List.length population).
  { symmetry. eapply Forall2_length. exact HF. }
  destruct Hpop as [Hpsize Hinds].
  destruct (track_best_returns population fs None 0 w2) as (best & w3 & Ht & _).
  { destruct population; [simpl in Hpsize; lia|discriminate]. }
  { exact Hlen. }
  assert (Hfit : (elitism_count self <= List.length population)%nat) by lia.
  destruct (elitism_returns (G := G) self population fs Hfit Hinds Hlen w3)
    as (elites & w4 & He & Hel & _).
  exists w4. unfold optimize.
  rewrite (bind_ok _ _ _ _ _ Hinit).
  rewrite (bind_ok _ _ w1 tt w2) by reflexivity.
  destruct (generations self) as [|g]; [lia|]. simpl.
  apply bind_raise. unfold generation.
  rewrite (bind_ok _ _ _ _ _ Hfs). rewrite (bind_ok _ _ _ _ _ Ht).
  apply bind_raise. unfold next_population.
  rewrite (bind_ok _ _ _ _ _ He). rewrite Hel.
  destruct (population_size self - elitism_count self)%nat as [|rounds] eqn:Er;
    [lia|].
  simpl. apply bind_raise. unfold select_parents. simpl.
  apply bind_raise. apply tournament_raises. lia.
Qed.

End SmallPopulations.

(** One individual, no elite. *)
Definition lonely_config : GeneticLayoutOptimizer :=
  optimizer_init 5 4 [Furniture.init "Bed" (3 # 2) 2] None 1 10 (1 # 5) 0.

(** No individual at all. *)
Definition unpopulated_config : GeneticLayoutOptimizer :=
  optimizer_init 5 4 [Furniture.init "Bed" (3 # 2) 2] None 0 10 (1 # 5) 0.

Lemma optimize_raises_without_individuals_witness :
  exists w', optimize unpopulated_config world0 = (Raise ValueError, w').
Proof.
  apply (optimize_raises_without_individuals unpopulated_config world0).
  - reflexivity.
  - simpl. lia.
Defined.

Lemma optimize_raises_when_parents_cannot_be_sampled_witness :
  exists w', optimize lonely_config world0 = (Raise ValueError, w').
Proof.
  apply (optimize_raises_when_parents_cannot_be_sampled lonely_config world0).
  - vm_compute. split; discriminate.
  - simpl. lia.
  - simpl. lia.
Defined.

(** ** The functions of the module *)

Lemma fold_add_fixed_element (elements : list FixedElement.t) (room : Room.t) :
  fold_left Room.add_fixed_element elements room
  = Room.mk (Room.name room) (Room.length room) (Room.width room)
      (Room.furniture room) (Room.fixed_elements room ++ elements).
Proof.
  revert room. induction elements as [|e l IH]; intros room; simpl.
  - rewrite app_nil_r. now destruct room.
  - rewrite IH. simpl. now rewrite <- app_assoc.
Qed.

Lemma fold_add_furniture (furniture_list : list nat) (room : Room.t) :
  fold_left Room.add_furniture furniture_list room
  = Room.mk (Room.name room) (Room.length room) (Room.width room)
      (Room.furniture room ++ furniture_list) (Room.fixed_elements room).
Proof.
  revert room. induction furniture_list as [|e l IH]; intros room; simpl.
  - rewrite app_nil_r. now destruct room.
  - rewrite IH. simpl. now rewrite <- app_assoc.
Qed.

(** [create_room_with_furniture] raises [TypeError] exactly when it is
    handed [None] as furniture list; handed a list, it returns a room
    that holds the very references of the list, in their order, and the
    fixed elements that [__init__] of the optimizer stores for the same
    argument. *)
Lemma create_room_with_furniture_spec (length width : Q)
    (layout : option (list nat))
    (elements : option (list FixedElement.t)) (name : string)
    (individuals rounds : nat) (rate : Q) (elite : nat)
    (catalog : list Furniture.t) :
  create_room_with_furniture length width layout elements name
  = match layout with
    | None => inr TypeError
    | Some l =>
        inl (Room.mk name length width l
               (fixed_elements
                  (optimizer_init length width catalog elements
                     individuals rounds rate elite)))
    end.
Proof.
  unfold create_room_with_furniture.
  destruct layout as [l|]; [|reflexivity].
  rewrite fold_add_furniture.
  destruct elements as [[|e rest]|]; try reflexivity.
  rewrite fold_add_fixed_element. reflexivity.
Qed.

Section ModuleFunctions.

Context {G : Type} `{RandomSource G} {sorter : ArgSort}.

Variables (length width : Q) (config : list FurnitureConfig.t)
  (elements : option (list FixedElement.t)).

(** With [generations=0] the loop of [optimize] is not entered, its best
    individual is still [None], and [optimize_room_layout] raises
    [TypeError] in the loop of [create_room_with_furniture], whatever the
    room, the catalog and the population size. *)
Theorem optimize_room_layout_without_generations (individuals : nat)
    (w : world G) :
  exists w',
    optimize_room_layout length width config elements 0 individuals w
    = (inr TypeError, w').
Proof.
  unfold optimize_room_layout.
  set (optimizer := layout_optimizer _ _ _ _ _ _).
  destruct (initialize_population_ok optimizer w) as (population & w1 & Hinit & _).
  exists (mkWorld (heap w1) (rng w1) []).
  unfold optimize. rewrite (bind_ok _ _ _ _ _ Hinit).
  rewrite (bind_ok _ _ w1 tt (mkWorld (heap w1) (rng w1) [])) by reflexivity.
  reflexivity.
Qed.

(** With the default [elitism_count=5], a population of one to four
    individuals makes the first generation raise [IndexError], which
    [optimize_room_layout] lets through. *)
Theorem optimize_room_layout_small_population (rounds individuals : nat)
    (w : world G) :
  (0 <= py_int (width * grid_size)
   /\ 0 <= py_int (length * grid_size))%Z ->
  (1 <= individuals < 5)%nat ->
  (1 <= rounds)%nat ->
  exists w',
    optimize_room_layout length width config elements rounds individuals w
    = (inr (FromOptimizer IndexError), w').
Proof.
  intros Hroom Hsize Hgen. unfold optimize_room_layout.
  set (optimizer := layout_optimizer _ _ _ _ _ _).
  destruct (initialize_population_ok optimizer w)
    as (population & w1 & Hinit & Hpop & _).
  set (w2 := mkWorld (heap w1) (rng w1) ([] : list Q)).
  destruct (generation_raises_when_elite_exceeds_population optimizer
              population None 0 w2 Hroom Hpop Hsize) as [w4 He].
  exists w4.
  assert (Hopt : optimize optimizer w = (Raise IndexError, w4)).
  { unfold optimize. rewrite (bind_ok _ _ _ _ _ Hinit).
    rewrite (bind_ok _ _ w1 tt w2) by reflexivity.
    change (generations optimizer) with rounds.
    destruct rounds as [|g]; [lia|]. simpl. now apply bind_raise. }
  rewrite Hopt. reflexivity.
Qed.

(** With five individuals or more and a room that has a grid,
    [optimize_room_layout] raises nothing but the [TypeError] of a run in
    which no individual ever scored above 0.  Otherwise it returns the
    best layout with its positive fitness, the history with one entry per
    generation, and a room of the given dimensions that holds the objects
    of the best layout themselves and the fixed elements of the
    optimizer. *)
Theorem optimize_room_layout_spec (rounds individuals : nat)
    (w : world G) :
  let optimizer :=
    layout_optimizer length width config elements rounds individuals in
  (0 <= py_int (width * grid_size)
   /\ 0 <= py_int (length * grid_size))%Z ->
  (5 <= individuals)%nat ->
  exists w',
    (optimize optimizer w = (Ok (None, 0), w')
     /\ optimize_room_layout length width config elements rounds individuals w
        = (inr TypeError, w'))
    \/ exists best fitness,
         optimize optimizer w = (Ok (Some best, fitness), w')
         /\ 0 < fitness
         /\ List.length best = List.length config
         /\ List.length (best_fitness_history w') = rounds
         /\ optimize_room_layout length width config elements rounds individuals w
            = (inl (Room.mk "Optimized Room" length width best
                      (fixed_elements optimizer),
                    Some best, fitness, best_fitness_history w'), w').
Proof.
  intros optimizer Hroom Hsize.
  assert (H3 : (3 <= population_size optimizer)%nat) by (simpl; lia).
  assert (H5 : (elitism_count optimizer
                <= population_size optimizer)%nat) by (simpl; lia).
  destruct (optimize_best_ok optimizer H3 H5 w Hroom)
    as (r & w' & Hopt & Hlen & Hshape & _).
  exists w'. unfold optimize_room_layout. fold optimizer. rewrite Hopt.
  destruct Hshape as [->|(best & Hb & Hbl & Hpos)].
  - left. split; reflexivity.
  - right. destruct r as [bi fitness]. simpl in Hb, Hpos, Hbl. subst bi.
    exists best, fitness. split; [reflexivity|]. split; [exact Hpos|].
    split; [rewrite Hbl; simpl; apply length_map|].
    split; [exact Hlen|].
    rewrite (create_room_with_furniture_spec length width (Some best)
               elements "Optimized Room" individuals rounds
               (1 # 5) 5 (furniture_list optimizer)).
    reflexivity.
Qed.

End ModuleFunctions.

(** A catalog of a bed and a sofa, and a door. *)
Definition bedroom_catalog : list FurnitureConfig.t :=
  [FurnitureConfig.mk "Bed" (3 # 2) 2 None;
   FurnitureConfig.mk "Sofa" (9 # 10) (11 # 5) (Some false)].

Definition bedroom_door : option (list FixedElement.t) :=
  Some [FixedElement.mk "Door" 0 0 (1 # 5) (9 # 10)].

Lemma optimize_room_layout_small_population_witness :
  exists w',
    optimize_room_layout 5 4 bedroom_catalog bedroom_door 100 4 world0
    = (inr (FromOptimizer IndexError), w').
Proof.
  apply (optimize_room_layout_small_population 5 4 bedroom_catalog bedroom_door
           100 4 world0).
  - vm_compute. split; discriminate.
  - lia.
  - lia.
Defined.

Lemma optimize_room_layout_spec_witness :
  exists w',
    (optimize (layout_optimizer 5 4 bedroom_catalog bedroom_door 2 5) world0
     = (Ok (None, 0), w')
     /\ optimize_room_layout 5 4 bedroom_catalog bedroom_door 2 5 world0
        = (inr TypeError, w'))
    \/ exists best fitness,
         optimize (layout_optimizer 5 4 bedroom_catalog bedroom_door 2 5) world0
         = (Ok (Some best, fitness), w')
         /\ 0 < fitness
         /\ List.length best = List.length bedroom_catalog
         /\ List.length (best_fitness_history w') = 2%nat
         /\ optimize_room_layout 5 4 bedroom_catalog bedroom_door 2 5 world0
            = (inl (Room.mk "Optimized Room" 5 4 best
                      (fixed_elements
                         (layout_optimizer 5 4 bedroom_catalog bedroom_door 2 5)),
                    Some best, fitness, best_fitness_history w'), w').
Proof.
  apply (optimize_room_layout_spec 5 4 bedroom_catalog bedroom_door 2 5 world0).
  - vm_compute. split; discriminate.
  - lia.
Defined.

(** ** The grid of a room and the grid of the fitness *)

Lemma map_imap {A B C} (g : B -> C) (f : nat -> A -> B) (l : list A) :
  map g (imap f l) = imap (fun i a => g (f i a)) l.
Proof.
  revert f. induction l as [|a l IH]; intros f; simpl; [reflexivity|].
  f_equal. apply IH.
Qed.

Lemma imap_map {A B C} (f : nat -> B -> C) (g : A -> B) (l : list A) :
  imap f (map g l) = imap (fun i a => f i (g a)) l.
Proof.
  revert f. induction l as [|a l IH]; intros f; simpl; [reflexivity|].
  f_equal. apply IH.
Qed.

(** Writing a value that is not 0 into a slice occupies the slice. *)
Lemma occupied_slice_assign_value rows cols y1 y2 x1 x2 v grid :
  occupied v = true ->
  map (map occupied) (Room.slice_assign_value rows cols y1 y2 x1 x2 v grid)
  = slice_assign rows cols y1 y2 x1 x2 (map (map occupied) grid).
Proof.
  intros Hv. unfold Room.slice_assign_value, slice_assign.
  rewrite map_imap, imap_map. apply imap_ext. intros r row _. simpl.
  destruct (in_range _ _ r); [|reflexivity].
  rewrite map_imap, imap_map. apply imap_ext. intros c cell _. simpl.
  destruct (in_range _ _ c); [exact Hv|reflexivity].
Qed.

Lemma occupied_fold_slices {A} (rows cols : nat) (v : Z)
    (bounds : A -> Z * Z * Z * Z) (l : list A) (grid : list (list Z)) :
  occupied v = true ->
  map (map occupied)
    (fold_left (fun grid a =>
       let '(y1, y2, x1, x2) := bounds a in
       Room.slice_assign_value rows cols y1 y2 x1 x2 v grid) l grid)
  = fold_left (fun grid a =>
       let '(y1, y2, x1, x2) := bounds a in
       slice_assign rows cols y1 y2 x1 x2 grid) l (map (map occupied) grid).
Proof.
  intros Hv. revert grid. induction l as [|a l IH]; intros grid; simpl;
    [reflexivity|].
  rewrite IH. destruct (bounds a) as [[[y1 y2] x1] x2].
  now rewrite occupied_slice_assign_value.
Qed.

(** [Room.get_grid_representation] lays an item out with its width along
    x and its length along y, [calculate_fitness] with its length along x
    and its width along y.  The grid of the room that
    [create_room_with_furniture] builds of a layout, read as occupied or
    empty cells, is therefore the grid on which the fitness of that layout
    with the width and the length of every item exchanged is computed; the
    two raise together. *)
Theorem room_grid_exchanges_dimensions (self : GeneticLayoutOptimizer)
    (h : list Furniture.t) (layout : list nat) (name : string) :
  create_room_with_furniture (room_length self) (room_width self) (Some layout)
    (Some (fixed_elements self)) name
  = inl (Room.mk name (room_length self) (room_width self) layout
           (fixed_elements self))
  /\ match Room.get_grid_representation
             (Room.mk name (room_length self) (room_width self) layout
                (fixed_elements self)) h grid_size,
           occupancy_grid self (map exchange_dimensions (deref h layout)) with
     | Ok grid, Ok (rows, cols, cells) => map (map occupied) grid = cells
     | Raise e, Raise e' => e = e'
     | _, _ => False
     end.
Proof.
  split.
  - rewrite (create_room_with_furniture_spec _ _ _ _ _ 0 0 0 0 []).
    simpl. now destruct (fixed_elements self).
  - unfold Room.get_grid_representation, occupancy_grid. simpl.
    destruct (_ || _); [reflexivity|].
    set (rows := Z.to_nat (py_int (room_width self * grid_size))).
    set (cols := Z.to_nat (py_int (room_length self * grid_size))).
    unfold add_furniture, add_fixed_elements, deref.
    rewrite !fold_left_map_arg.
    rewrite (occupied_fold_slices rows cols 2
      (fun l =>
         (py_int (Furniture.y (h !!! l) * grid_size),
          py_int ((Furniture.y (h !!! l) + Furniture.length (h !!! l))
                  * grid_size),
          py_int (Furniture.x (h !!! l) * grid_size),
          py_int ((Furniture.x (h !!! l) + Furniture.width (h !!! l))
                  * grid_size))))
      by reflexivity.
    rewrite (occupied_fold_slices rows cols 1
      (fun element =>
         (py_int (FixedElement.y element * grid_size),
          py_int ((FixedElement.y element + FixedElement.length element)
                  * grid_size),
          py_int (FixedElement.x element * grid_size),
          py_int ((FixedElement.x element + FixedElement.width element)
                  * grid_size))))
      by reflexivity.
    rewrite !map_repeat. reflexivity.
Qed.

(** ** Crossover and mutation *)

Section CrossoverMutation.

Context {G : Type} `{RandomSource G}.

Variable self : GeneticLayoutOptimizer.

(** One round of the loop of [crossover]: a draw, and a new object with
    the values of the item of one of the parents. *)
Lemma crossover_step (parent1 parent2 : list nat) (i l1 l2 : nat) (w : world G) :
  parent1 !! i = Some l1 ->
  parent2 !! i = Some l2 ->
  exists l g',
    (l = l1 \/ l = l2)
    /\ (r <- random_random ;;
        if Qlt_bool r (1 # 2)
        then (l <- lift_result (index parent1 i) ;; deepcopy_furniture l)
        else (l <- lift_result (index parent2 i) ;; deepcopy_furniture l)) w
       = (Ok (List.length (heap w)),
          mkWorld (heap w ++ [heap w !!! l]) g' (best_fitness_history w)).
Proof.
  intros Hl1 Hl2. unfold bind at 1. unfold random_random.
  destruct (next_float (rng w)) as [r g'].
  destruct (Qlt_bool r (1 # 2)).
  - exists l1, g'. split; [left; reflexivity|].
    unfold bind, lift_result, index. simpl. rewrite Hl1. reflexivity.
  - exists l2, g'. split; [right; reflexivity|].
    unfold bind, lift_result, index. simpl. rewrite Hl2. reflexivity.
Qed.

(** The loop of [crossover] from position [a] on. *)
Lemma crossover_loop (parent1 parent2 : list nat) (k : nat) :
  forall (a : nat) (w : world G),
    (a + k <= List.length parent1)%nat ->
    (a + k <= List.length parent2)%nat ->
    Forall (fun l => (l < List.length (heap w))%nat) (parent1 ++ parent2) ->
    returns
      (for_each (fun i =>
         r <- random_random ;;
         if Qlt_bool r (1 # 2)
         then (l <- lift_result (index parent1 i) ;; deepcopy_furniture l)
         else (l <- lift_result (index parent2 i) ;; deepcopy_furniture l))
         (seq a k)) w
      (fun child w' =>
         child = seq (List.length (heap w)) k
         /\ best_fitness_history w' = best_fitness_history w
         /\ exists genes,
              heap w' = heap w ++ genes
              /\ Forall2 (fun i gene =>
                   exists l, (parent1 !! i = Some l \/ parent2 !! i = Some l)
                     /\ gene = heap w !!! l)
                   (seq a k) genes).
Proof.
  induction k as [|k IH]; intros a w H1 H2 Hvalid; simpl.
  - apply returns_ret. split; [reflexivity|]. split; [reflexivity|].
    exists []. rewrite app_nil_r. split; [reflexivity|constructor].
  - destruct (lookup_lt_is_Some_2 parent1 a) as [l1 Hl1]; [lia|].
    destruct (lookup_lt_is_Some_2 parent2 a) as [l2 Hl2]; [lia|].
    destruct (crossover_step parent1 parent2 a l1 l2 w Hl1 Hl2)
      as (l & g' & Hl & Hstep).
    apply returns_bind. eexists _, _. split; [exact Hstep|].
    apply returns_bind.
    eapply returns_weaken.
    + apply (IH (S a)); [lia|lia|]. simpl.
      eapply Forall_impl; [exact Hvalid|].
      intros l' Hl'. simpl in Hl'. rewrite length_app. simpl. lia.
    + simpl. intros child w' (Hchild & Hh & genes & Hheap & HF).
      apply returns_ret.
      split; [rewrite Hchild, length_app; simpl; f_equal; f_equal; lia|].
      split; [exact Hh|].
      exists (heap w !!! l :: genes).
      split; [rewrite Hheap, <- app_assoc; reflexivity|].
      constructor.
      * exists l. split; [destruct Hl as [-> | ->]; auto|reflexivity].
      * eapply Forall2_impl; [exact HF|].
        intros i gene (l' & Hl' & ->). exists l'. split; [exact Hl'|].
        apply lookup_total_app_l.
        rewrite Forall_forall in Hvalid. apply Hvalid.
        apply elem_of_app.
        destruct Hl' as [Hl'|Hl']; [left|right];
          eapply list_elem_of_lookup_2; exact Hl'.
Qed.

(** [crossover] of two parents whose items are objects of the heap,
    the second with at least as many items as the first: the child is made
    of new objects, one per item of the first parent, each with the values
    of the item at the same position of one of the parents; the objects of
    before, those of the parents among them, are unchanged. *)
Theorem crossover_spec (parent1 parent2 : list nat) (w : world G) :
  (List.length parent1 <= List.length parent2)%nat ->
  Forall (fun l => (l < List.length (heap w))%nat) (parent1 ++ parent2) ->
  returns (crossover parent1 parent2) w
    (fun child w' =>
       child = seq (List.length (heap w)) (List.length parent1)
       /\ best_fitness_history w' = best_fitness_history w
       /\ exists genes,
            heap w' = heap w ++ genes
            /\ Forall2 (fun i gene =>
                 exists l, (parent1 !! i = Some l \/ parent2 !! i = Some l)
                   /\ gene = heap w !!! l)
                 (seq 0 (List.length parent1)) genes).
Proof.
  intros Hlen Hvalid. unfold crossover.
  apply (crossover_loop parent1 parent2 (List.length parent1) 0%nat w);
    [lia|lia|exact Hvalid].
Qed.

Lemma same_item_refl f : same_item f f.
Proof. unfold same_item. auto. Qed.

Lemma same_item_trans f1 f2 f3 :
  same_item f1 f2 -> same_item f2 f3 -> same_item f1 f3.
Proof.
  unfold same_item. intros (Hn & Hm & Hd) (Hn' & Hm' & Hd').
  split; [congruence|]. split; [congruence|].
  destruct Hd as [[? ?]|[? ?]], Hd' as [[? ?]|[? ?]];
    [left|right|right|left]; split; congruence.
Qed.

Lemma same_item_rotate f : same_item f (Furniture.rotate f).
Proof.
  unfold same_item, Furniture.rotate.
  destruct (_ || _); simpl; auto.
Qed.

Lemma same_item_set_position f x y o : same_item f (Furniture.set_position f x y o).
Proof. unfold same_item. simpl. auto. Qed.

Lemma mutated_in_refl ls (w : world G) g :
  mutated_in ls w (mkWorld (heap w) g (best_fitness_history w)).
Proof.
  unfold mutated_in. simpl. split; [reflexivity|]. split; [reflexivity|].
  intros l. split; [apply same_item_refl|reflexivity].
Qed.

Lemma mutated_in_trans ls (w1 w2 w3 : world G) :
  mutated_in ls w1 w2 -> mutated_in ls w2 w3 -> mutated_in ls w1 w3.
Proof.
  intros (Hl & Hh & Ho) (Hl' & Hh' & Ho').
  split; [congruence|]. split; [congruence|].
  intros l. destruct (Ho l) as [Hs Hf], (Ho' l) as [Hs' Hf'].
  split; [eapply same_item_trans; eassumption|].
  intros Hnot. rewrite (Hf' Hnot). apply Hf. exact Hnot.
Qed.

Lemma mutated_in_store ls l f (w : world G) :
  In l ls ->
  same_item (heap w !!! l) f ->
  mutated_in ls w (mkWorld (<[l := f]> (heap w)) (rng w) (best_fitness_history w)).
Proof.
  intros Hin Hs. unfold mutated_in. simpl.
  split; [apply length_insert|]. split; [reflexivity|].
  intros l'. destruct (decide (l' = l)) as [->|Hne].
  - split; [|intros Hnot; contradiction].
    destruct (decide (l < List.length (heap w))%nat) as [Hlt|Hge].
    + rewrite list_lookup_total_insert_eq by exact Hlt. exact Hs.
    + rewrite list_insert_ge by lia. apply same_item_refl.
  - rewrite list_lookup_total_insert_ne by congruence.
    split; [apply same_item_refl|reflexivity].
Qed.

(** Sequencing two computations that only mutate. *)
Lemma mutates_bind {A B} (ls : list nat) (m : M G A) (k : A -> M G B)
    (w : world G) :
  returns m w (fun _ w1 => mutated_in ls w w1) ->
  (forall a w1, returns (k a) w1 (fun _ w2 => mutated_in ls w1 w2)) ->
  returns (x <- m ;; k x) w (fun _ w2 => mutated_in ls w w2).
Proof.
  intros (a & w1 & Hm & H1) Hk. apply returns_bind.
  exists a, w1. split; [exact Hm|].
  eapply returns_weaken; [apply Hk|].
  intros b w2 H2. eapply mutated_in_trans; eassumption.
Qed.

Lemma mutates_random_random ls (w : world G) :
  returns random_random w (fun _ w1 => mutated_in ls w w1).
Proof.
  unfold returns, random_random. destruct (next_float (rng w)) as [r g].
  eexists _, _. split; [reflexivity|]. apply mutated_in_refl.
Qed.

Lemma mutates_random_uniform ls a b (w : world G) :
  returns (random_uniform a b) w (fun _ w1 => mutated_in ls w w1).
Proof.
  unfold random_uniform. apply mutates_bind; [apply mutates_random_random|].
  intros r w1. apply returns_ret.
  destruct w1. apply (mutated_in_refl ls (mkWorld _ _ _)).
Qed.

Lemma mutates_ret {A} ls (a : A) (w : world G) :
  returns (ret a) w (fun _ w1 => mutated_in ls w w1).
Proof. apply returns_ret. destruct w. apply (mutated_in_refl ls (mkWorld _ _ _)). Qed.

Lemma mutates_call_set_position ls l x y (w : world G) :
  In l ls ->
  returns (call_set_position l x y) w (fun _ w1 => mutated_in ls w w1).
Proof.
  intros Hin. unfold call_set_position, load, store, bind, returns.
  eexists _, _. split; [reflexivity|].
  apply mutated_in_store; [exact Hin|apply same_item_set_position].
Qed.

Lemma mutates_call_rotate ls l (w : world G) :
  In l ls ->
  returns (call_rotate l) w (fun _ w1 => mutated_in ls w w1).
Proof.
  intros Hin. unfold call_rotate, load, store, bind, returns.
  eexists _, _. split; [reflexivity|].
  apply mutated_in_store; [exact Hin|apply same_item_rotate].
Qed.

Lemma mutates_mutate_item ls l (w : world G) :
  In l ls ->
  returns (mutate_item self l) w (fun _ w1 => mutated_in ls w w1).
Proof.
  intros Hin. unfold mutate_item.
  apply mutates_bind; [apply mutates_random_random|].
  intros r w1. apply mutates_bind.
  - destruct (Qlt_bool r (mutation_rate self)); [|apply mutates_ret].
    apply mutates_bind.
    { unfold load, returns. eexists _, _. split; [reflexivity|].
      destruct w1. apply (mutated_in_refl ls (mkWorld _ _ _)). }
    intros f w2. apply mutates_bind; [apply mutates_random_uniform|].
    intros x w3. apply mutates_bind; [apply mutates_random_uniform|].
    intros y w4. apply mutates_call_set_position. exact Hin.
  - intros _ w2. apply mutates_bind; [apply mutates_random_random|].
    intros r' w3. destruct (Qlt_bool r' (mutation_rate self));
      [apply mutates_call_rotate; exact Hin|apply mutates_ret].
Qed.

(** [mutate] returns the list it was given, with the same references: it
    changes the objects of that individual in place.  Each keeps its name
    and its flag [movable], and its dimensions up to an exchange; no
    other object of the heap changes, and none is created. *)
Theorem mutate_spec (ind : list nat) (w : world G) :
  returns (mutate self ind) w
    (fun ind' w' => ind' = ind /\ mutated_in ind w w').
Proof.
  unfold mutate. apply returns_bind.
  assert (Hloop : forall items, (forall l, In l items -> In l ind) ->
            forall w0, returns (for_each (mutate_item self) items) w0
              (fun _ w1 => mutated_in ind w0 w1)).
  { induction items as [|l items IH]; intros Hsub w0; simpl.
    - apply mutates_ret.
    - apply mutates_bind; [apply mutates_mutate_item, Hsub; left; reflexivity|].
      intros b w1. apply mutates_bind; [|intros bs w2; apply mutates_ret].
      apply IH. intros l' Hl'. apply Hsub. right. exact Hl'. }
  eapply returns_weaken; [apply (Hloop ind); auto|].
  intros bs w1 Hm. apply returns_ret. split; [reflexivity|exact Hm].
Qed.

End CrossoverMutation.

Lemma crossover_spec_witness :
  returns (crossover [0%nat] [1%nat]) tie_world
    (fun child w' =>
       child = seq (List.length (heap tie_world)) (List.length [0%nat])
       /\ best_fitness_history w' = best_fitness_history tie_world
       /\ exists genes,
            heap w' = heap tie_world ++ genes
            /\ Forall2 (fun i gene =>
                 exists l, ([0%nat] !! i = Some l \/ [1%nat] !! i = Some l)
                   /\ gene = heap tie_world !!! l)
                 (seq 0 (List.length [0%nat])) genes).
Proof.
  apply (crossover_spec [0%nat] [1%nat] tie_world).
  - simpl. lia.
  - repeat constructor; simpl; lia.
Defined.

(** ** The three outcomes of the fitness evaluation *)

Lemma Qnat_le n m : (n <= m)%nat -> Qnat n <= Qnat m.
Proof.
  intros Hle. unfold Qnat. rewrite <- Zle_Qle. lia.
Qed.

(** [calculate_fitness] raises [ValueError] when a dimension of the grid
    is negative, returns 0 when the grid has no cell (the walkability is
    then not a number, which [max(0, score)] turns into 0), and otherwise
    returns the clamped score, which is at most 130 plus 5 for every
    item. *)
Theorem calculate_fitness_outcomes (self : GeneticLayoutOptimizer)
    (individual : list Furniture.t) :
  let rows := py_int (room_width self * grid_size) in
  let cols := py_int (room_length self * grid_size) in
  ((rows < 0 \/ cols < 0)%Z ->
   calculate_fitness self individual = Raise ValueError)
  /\ ((0 <= rows)%Z -> (0 <= cols)%Z -> (rows = 0 \/ cols = 0)%Z ->
      calculate_fitness self individual = Ok 0)
  /\ ((0 < rows)%Z -> (0 < cols)%Z ->
      exists score walkability,
        calculate_fitness self individual = Ok (py_max0 score)
        /\ (0 <= walkability /\ walkability <= 1)
        /\ score == 100
             - 20 * Qnat (fixed_overlap_count individual (fixed_elements self))
             - 15 * Qnat (furniture_overlap_count individual)
             + 5 * Qnat (near_wall_count self individual)
             + walkability * 30
        /\ py_max0 score <= 130 + 5 * Qnat (List.length individual)).
Proof.
  cbn zeta. split; [|split].
  - intros Hneg. unfold calculate_fitness, raw_score, occupancy_grid.
    destruct (_ || _) eqn:E; [reflexivity|].
    apply orb_false_iff in E as [E1 E2]. apply Z.ltb_ge in E1, E2. lia.
  - intros Hr Hc Hzero. unfold calculate_fitness, raw_score, occupancy_grid.
    destruct (_ || _) eqn:E.
    { apply orb_true_iff in E. rewrite !Z.ltb_lt in E. lia. }
    unfold walkability.
    destruct (Z.to_nat _ * Z.to_nat _)%nat eqn:Em; [reflexivity|]. nia.
  - intros Hr Hc. unfold calculate_fitness.
    destruct (raw_score self individual) as [[score|]|e] eqn:E.
    + destruct (raw_score_formula _ _ _ E) as (walk & [Hw0 Hw1] & Hs).
      exists score, walk. split; [reflexivity|]. split; [auto|].
      split; [exact Hs|].
      assert (Hn : Qnat (near_wall_count self individual)
                   <= Qnat (List.length individual)).
      { apply Qnat_le. unfold near_wall_count. apply filter_length_le. }
      pose proof (Qnat_nonneg (fixed_overlap_count individual (fixed_elements self))).
      pose proof (Qnat_nonneg (furniture_overlap_count individual)).
      pose proof (Qnat_nonneg (List.length individual)).
      unfold py_max0. destruct (Qlt_bool 0 score); lra.
    + exfalso. unfold raw_score in E.
      destruct (occupancy_grid self individual)
        as [[[rows cols] grid]|e] eqn:Eg; [|discriminate].
      unfold occupancy_grid in Eg. destruct (_ || _); [discriminate|].
      injection Eg as <- <- <-.
      unfold walkability in E.
      destruct (Z.to_nat _ * Z.to_nat _)%nat eqn:Em; [|discriminate]. nia.
    + exfalso. unfold raw_score in E.
      destruct (occupancy_grid self individual)
        as [[[rows cols] grid]|e'] eqn:Eg.
      * destruct (walkability rows cols grid); discriminate.
      * apply occupancy_grid_raises in Eg. lia.
Qed.

(** ** A room whose grid has no cell *)

Lemma fitness_without_cells (self : GeneticLayoutOptimizer)
    (individual : list Furniture.t) :
  (0 <= py_int (room_width self * grid_size))%Z ->
  (0 <= py_int (room_length self * grid_size))%Z ->
  (py_int (room_width self * grid_size) = 0
   \/ py_int (room_length self * grid_size) = 0)%Z ->
  calculate_fitness self individual = Ok 0.
Proof.
  intros Hr Hc Hzero. unfold calculate_fitness, raw_score, occupancy_grid.
  destruct (_ || _) eqn:E.
  { apply orb_true_iff in E. rewrite !Z.ltb_lt in E. lia. }
  unfold walkability.
  destruct (Z.to_nat _ * Z.to_nat _)%nat eqn:Em; [reflexivity|]. nia.
Qed.

(** In a room with a side of less than one grid cell (5 cm) every
    arrangement has fitness 0, so that [optimize] finds no best individual:
    with three individuals or more and an elite that fits it returns
    [None] and 0. *)
Theorem optimize_in_room_without_cells {G : Type} `{RandomSource G}
    {sorter : ArgSort} (self : GeneticLayoutOptimizer) (w : world G) :
  (0 <= py_int (room_width self * grid_size))%Z ->
  (0 <= py_int (room_length self * grid_size))%Z ->
  (py_int (room_width self * grid_size) = 0
   \/ py_int (room_length self * grid_size) = 0)%Z ->
  (3 <= population_size self)%nat ->
  (elitism_count self <= population_size self)%nat ->
  exists w', optimize self w = (Ok (None, 0), w').
Proof.
  intros Hr Hc Hzero Hn He.
  destruct (initialize_population_ok self w) as (population & w1 & Hinit & Hpop & _).
  set (w2 := mkWorld (heap w1) (rng w1) ([] : list Q)).
  unfold optimize. rewrite (bind_ok _ _ _ _ _ Hinit).
  rewrite (bind_ok _ _ w1 tt w2) by reflexivity.
  apply (generations_loop_all_zero self Hn He); [exact Hpop|].
  intros k st w' _ _. apply Forall_forall. intros ind _.
  exists 0. split; [|reflexivity].
  apply fitness_without_cells; assumption.
Qed.

(** A corridor of 4 cm by 3 m. *)
Definition corridor_config : GeneticLayoutOptimizer :=
  optimizer_init 3 (1 # 25) [Furniture.init "Shelf" (3 # 10) 1] None 5 3 (1 # 5) 2.

Lemma optimize_in_room_without_cells_witness :
  exists w', optimize corridor_config world0 = (Ok (None, 0), w').
Proof.
  apply (optimize_in_room_without_cells corridor_config world0).
  - vm_compute. discriminate.
  - vm_compute. discriminate.
  - left. vm_compute. reflexivity.
  - simpl. lia.
  - simpl. lia.
Defined.
